(** * wwvb_dec: the WWVB frame synchroniser and field decoder

    A shallow embedding of [wwvb_dec.c].  Every [uint32_t] is a [Z] whose
    wrap-around is written out with [u32]; the global sample array
    [uint8_t bits[BLEN]] is a [list Z] that every function receives; an array
    access outside its array is undefined behaviour in C and is a fault
    [OutOfBounds i] here, so that "every index read is in bounds" is the same
    as "the function returns [Ok]".

    The file has the functions of the program first, then the vocabulary of
    the statements and the test buffers, then the proofs: the lemmas on the
    loops and the scores, the claims C1 to C10, and the further properties
    X1 to X19 of the symbol matcher, the synchroniser, the decoder, the
    calendar converter, [print_frame], [main] and the buffer files.  The
    calendar converter is embedded twice: [daynum_to_month_day] stops at the
    first access outside its table, [daynum_to_month_day_around] serves such
    an access from the memory around the table and runs on. *)

From Stdlib Require Import String ZArith List Bool Lia.
Import ListNotations.
Local Open Scope Z_scope.

(** ** Results of fallible code *)

Inductive result (A : Type) : Type :=
| Ok (a : A)
| OutOfBounds (i : Z)
| OutOfFuel.
Arguments Ok {A} a.
Arguments OutOfBounds {A} i.
Arguments OutOfFuel {A}.

Definition bind {A B : Type} (m : result A) (k : A -> result B) : result B :=
  match m with
  | Ok a => k a
  | OutOfBounds i => OutOfBounds i
  | OutOfFuel => OutOfFuel
  end.

Notation "x <- m ;; k" := (bind m (fun x => k))
  (at level 61, m at next level, right associativity).
Notation "' p <- m ;; k" := (bind m (fun x => let p := x in k))
  (at level 61, p pattern, m at next level, right associativity).

(** ** Machine integers and arrays *)

Definition u32 (x : Z) : Z := x mod 2 ^ 32.

(** [a[i]] as an rvalue. *)
Definition load (a : list Z) (i : Z) : result Z :=
  if i <? 0 then OutOfBounds i
  else match nth_error a (Z.to_nat i) with
       | Some v => Ok v
       | None => OutOfBounds i
       end.

Fixpoint replace_nth (a : list Z) (n : nat) (v : Z) : list Z :=
  match a, n with
  | [], _ => []
  | _ :: t, O => v :: t
  | h :: t, S n' => h :: replace_nth t n' v
  end.

(** [a[i] = v]. *)
Definition store (a : list Z) (i v : Z) : result (list Z) :=
  if (i <? 0) || (Z.of_nat (length a) <=? i) then OutOfBounds i
  else Ok (replace_nth a (Z.to_nat i) v).

(** [for (i = lo; i < hi; i++) s = body(i, s);] with [i], [lo], [hi] of type
    [uint32_t]: the body runs [hi - lo] times when [lo < hi] and never
    otherwise; [i] stays below [hi], so the increment does not wrap. *)
Fixpoint for_loop {S : Type} (n : nat) (i : Z) (body : Z -> S -> result S)
  (s : S) : result S :=
  match n with
  | O => Ok s
  | Datatypes.S n' => s' <- body i s ;; for_loop n' (i + 1) body s'
  end.

Definition for_range {S : Type} (lo hi : Z) (body : Z -> S -> result S)
  (s : S) : result S :=
  for_loop (Z.to_nat (hi - lo)) lo body s.

(** ** Constants *)

Definition SAMP_PERIOD : Z := 25.
Definition BUF_LEN_IN_SEC : Z := 120.
Definition SAMPLES_PER_SEC : Z := 1000 / SAMP_PERIOD.
Definition BLEN : Z := SAMPLES_PER_SEC * BUF_LEN_IN_SEC.
Definition DECODE_FAILURE : Z := 9999.

(** ** Symbol matcher *)

Definition xor_sec (bits : list Z) (samp_idx zero_len one_len : Z) : result Z :=
  sum <- for_range samp_idx (u32 (samp_idx + zero_len))
           (fun i sum => b <- load bits i ;; Ok (u32 (sum + Z.lxor 0 b))) 0 ;;
  let samp_idx := u32 (samp_idx + zero_len) in
  for_range samp_idx (u32 (samp_idx + one_len))
    (fun i sum => b <- load bits i ;; Ok (u32 (sum + Z.lxor 1 b))) sum.

Definition xor_mark (bits : list Z) (samp_idx : Z) : result Z :=
  xor_sec bits samp_idx (800 / SAMP_PERIOD) (200 / SAMP_PERIOD).

Definition xor_zero (bits : list Z) (samp_idx : Z) : result Z :=
  xor_sec bits samp_idx (200 / SAMP_PERIOD) (800 / SAMP_PERIOD).

Definition xor_one (bits : list Z) (samp_idx : Z) : result Z :=
  xor_sec bits samp_idx (500 / SAMP_PERIOD) (500 / SAMP_PERIOD).

(** [decode_sec] returns [(best_type, *score)]: 0, 1 or 2 for zero, one or
    mark. *)
Definition decode_sec (bits : list Z) (samp_idx : Z) : result (Z * Z) :=
  zero_score <- xor_zero bits samp_idx ;;
  one_score <- xor_one bits samp_idx ;;
  mark_score <- xor_mark bits samp_idx ;;
  let '(best_type, lscore) :=
    if one_score <? zero_score then (1, one_score) else (0, zero_score) in
  let '(best_type, lscore) :=
    if mark_score <? lscore then (2, mark_score) else (best_type, lscore) in
  Ok (best_type, lscore).

(** ** Frame synchroniser *)

Record const_field : Type := { type : Z; sec : Z }.

(** The position (second) of each fixed-value field of the frame: [type] is 0
    for a zero (unused bit) and 2 for a mark. *)
Definition frame_const_fields : list const_field :=
  [ {| type := 2; sec := 0 |};
    {| type := 0; sec := 4 |};
    {| type := 2; sec := 9 |};
    {| type := 0; sec := 10 |};
    {| type := 0; sec := 11 |};
    {| type := 0; sec := 14 |};
    {| type := 2; sec := 19 |};
    {| type := 0; sec := 20 |};
    {| type := 0; sec := 21 |};
    {| type := 0; sec := 24 |};
    {| type := 2; sec := 29 |};
    {| type := 0; sec := 34 |};
    {| type := 0; sec := 35 |};
    {| type := 2; sec := 39 |};
    {| type := 0; sec := 44 |};
    {| type := 2; sec := 49 |};
    {| type := 0; sec := 54 |};
    {| type := 2; sec := 59 |} ].

(** One turn of the [switch] in [xor_frame]: the new [sum]. *)
Definition xor_frame_case (bits : list Z) (samp_idx : Z) (f : const_field)
  (sum : Z) : result Z :=
  if type f =? 0 then
    res <- xor_zero bits (u32 (samp_idx + sec f * SAMPLES_PER_SEC)) ;;
    Ok (u32 (sum + res))
  else if type f =? 2 then
    res <- xor_mark bits (u32 (samp_idx + sec f * SAMPLES_PER_SEC)) ;;
    Ok (u32 (sum + res))
  else Ok sum.

(** The loop of [xor_frame] over the entries of the table still to visit. *)
Fixpoint xor_frame_loop (bits : list Z) (samp_idx min_val : Z)
  (fields : list const_field) (sum : Z) : result Z :=
  match fields with
  | [] => Ok sum
  | f :: rest =>
      sum <- xor_frame_case bits samp_idx f sum ;;
      if sum >? min_val then Ok sum
      else xor_frame_loop bits samp_idx min_val rest sum
  end.

Definition xor_frame (bits : list Z) (samp_idx min_val : Z) : result Z :=
  xor_frame_loop bits samp_idx min_val frame_const_fields 0.

(** The body of the loop of [find_frame]; the state is [(min_idx, lmin)]. *)
Definition find_frame_body (bits : list Z) (samp_idx : Z) (st : Z * Z)
  : result (Z * Z) :=
  let '(min_idx, lmin) := st in
  res <- xor_frame bits samp_idx lmin ;;
  if res <? lmin then Ok (samp_idx, res) else Ok (min_idx, lmin).

(** [find_frame] returns [(min_idx, *min_val)]. *)
Definition find_frame (bits : list Z) : result (Z * Z) :=
  for_range 0 (u32 (BLEN - SAMPLES_PER_SEC * 60)) (find_frame_body bits)
    (u32 (BLEN + BLEN), u32 (SAMPLES_PER_SEC * 120)).

(** The exhaustive variant of the synchroniser, as the specification words
    it: every candidate is scored on all the fixed positions, nothing is
    abandoned early. *)
Fixpoint xor_frame_exhaustive_loop (bits : list Z) (samp_idx : Z)
  (fields : list const_field) (sum : Z) : result Z :=
  match fields with
  | [] => Ok sum
  | f :: rest =>
      sum <- xor_frame_case bits samp_idx f sum ;;
      xor_frame_exhaustive_loop bits samp_idx rest sum
  end.

Definition xor_frame_exhaustive (bits : list Z) (samp_idx : Z) : result Z :=
  xor_frame_exhaustive_loop bits samp_idx frame_const_fields 0.

Definition find_frame_exhaustive_body (bits : list Z) (samp_idx : Z)
  (st : Z * Z) : result (Z * Z) :=
  let '(min_idx, lmin) := st in
  res <- xor_frame_exhaustive bits samp_idx ;;
  if res <? lmin then Ok (samp_idx, res) else Ok (min_idx, lmin).

Definition find_frame_exhaustive (bits : list Z) : result (Z * Z) :=
  for_range 0 (u32 (BLEN - SAMPLES_PER_SEC * 60))
    (find_frame_exhaustive_body bits)
    (u32 (BLEN + BLEN), u32 (SAMPLES_PER_SEC * 120)).

(** ** Field decoder *)

Record code_t : Type := { bit : Z; weight : Z }.

Definition mk_code (b w : Z) : code_t := {| bit := b; weight := w |}.

Definition minutes_code : list code_t :=
  [mk_code 1 40; mk_code 2 20; mk_code 3 10; mk_code 5 8; mk_code 6 4;
   mk_code 7 2; mk_code 8 1].
Definition hours_code : list code_t :=
  [mk_code 12 20; mk_code 13 10; mk_code 15 8; mk_code 16 4; mk_code 17 2;
   mk_code 18 1].
Definition day_code : list code_t :=
  [mk_code 22 200; mk_code 23 100; mk_code 25 80; mk_code 26 40;
   mk_code 27 20; mk_code 28 10; mk_code 30 8; mk_code 31 4; mk_code 32 2;
   mk_code 33 1].
Definition year_code : list code_t :=
  [mk_code 45 80; mk_code 46 40; mk_code 47 20; mk_code 48 10; mk_code 50 8;
   mk_code 51 4; mk_code 52 2; mk_code 53 1].
Definition lyi_code : list code_t := [mk_code 55 1].
Definition lsw_code : list code_t := [mk_code 56 1].
Definition dst_code : list code_t := [mk_code 57 2; mk_code 58 1].

Record field_t : Type := {
  name : String.string;
  value : Z;
  score : Z;
  worst_score : Z;
  val_width : Z;
  code : list code_t;
  code_len : Z
}.

Definition mk_field (n : String.string) (w : Z) (c : list code_t) : field_t :=
  {| name := n; value := 0xffffffff; score := 0xffffffff;
     worst_score := 0xffffffff; val_width := w; code := c;
     code_len := Z.of_nat (length c) |}.

Definition frame : list field_t :=
  [ mk_field "hours"%string 2 hours_code;
    mk_field "minutes"%string 2 minutes_code;
    mk_field "day"%string 3 day_code;
    mk_field "year"%string 2 year_code;
    mk_field "lyi"%string 1 lyi_code;
    mk_field "lsw"%string 1 lsw_code;
    mk_field "dst"%string 2 dst_code ].

(** The first sample of the second that the code entry [c] names, as
    [decode_field] computes it. *)
Definition code_sample (frame_idx : Z) (c : code_t) : Z :=
  u32 (frame_idx + u32 (bit c * SAMPLES_PER_SEC)).

(** The loop of [decode_field] over the entries [code[i..code_len)] still to
    visit; the state is [(field_val, lscore, *worst_score)] and the result is
    [(returned value, *score, *worst_score)]. *)
Fixpoint decode_field_loop (bits : list Z) (frame_idx : Z) (code : list code_t)
  (field_val lscore worst : Z) : result (Z * Z * Z) :=
  match code with
  | [] => Ok (field_val, lscore, worst)
  | c :: rest =>
      ' (res, res_score) <- decode_sec bits (code_sample frame_idx c) ;;
      let worst := if res_score >? worst then res_score else worst in
      if res =? 2 then Ok (0, DECODE_FAILURE, SAMPLES_PER_SEC)
      else decode_field_loop bits frame_idx rest
             (u32 (field_val + u32 (weight c * res)))
             (u32 (lscore + res_score)) worst
  end.

(** [code] stands for the array [code[0..code_len)] the C function receives
    as a pointer and a length. *)
Definition decode_field (bits : list Z) (frame_idx : Z) (code : list code_t)
  : result (Z * Z * Z) :=
  decode_field_loop bits frame_idx code 0 0 0.

(** The loop of [decode_frame] over the fields still to decode: the total
    score and the fields with their results written in. *)
Fixpoint decode_frame_loop (bits : list Z) (frame_idx : Z)
  (fields : list field_t) (total : Z) : result (Z * list field_t) :=
  match fields with
  | [] => Ok (total, [])
  | f :: rest =>
      ' (res, res_score, worst) <- decode_field bits frame_idx (code f) ;;
      let f' := {| name := name f; value := res; score := res_score;
                   worst_score := worst; val_width := val_width f;
                   code := code f; code_len := code_len f |} in
      ' (total, rest') <-
        decode_frame_loop bits frame_idx rest (u32 (total + res_score)) ;;
      Ok (total, f' :: rest')
  end.

Definition decode_frame (bits : list Z) (frame_idx : Z)
  (frame : list field_t) : result (Z * list field_t) :=
  decode_frame_loop bits frame_idx frame 0.

(** ** Calendar converter *)

(** [while (daysums[*month] < daynum) *month += 1;] *)
Fixpoint month_search (fuel : nat) (daysums : list Z) (daynum month : Z)
  : result Z :=
  match fuel with
  | O => OutOfFuel
  | S fuel' =>
      d <- load daysums month ;;
      if d <? daynum then month_search fuel' daysums daynum (u32 (month + 1))
      else Ok month
  end.

(** [daysums[i] += 1;] *)
Definition daysums_increment (i : Z) (daysums : list Z) : result (list Z) :=
  d <- load daysums i ;; store daysums i (u32 (d + 1)).

(** [daynum_to_month_day] returns [( *month, *day)]. *)
Definition daynum_to_month_day_fuel (fuel : nat) (daynum is_leap_year : Z)
  : result (Z * Z) :=
  let daysums := [31; 59; 90; 120; 151; 181; 212; 243; 273; 304; 334; 365] in
  daysums <-
    (if is_leap_year =? 0 then Ok daysums
     else for_range 1 13 daysums_increment daysums) ;;
  month <- month_search fuel daysums daynum 0 ;;
  day <-
    (if month >? 0 then
       d <- load daysums (u32 (month - 1)) ;; Ok (u32 (daynum - d))
     else Ok daynum) ;;
  Ok (u32 (month + 1), day).

(** The search reads one entry further at every turn and the table has
    twelve: thirteen turns end it, with a month or with a fault. *)
Definition daynum_to_month_day (daynum is_leap_year : Z) : result (Z * Z) :=
  daynum_to_month_day_fuel 13 daynum is_leap_year.

(** *** The converter with the memory around its table

    Above, an access outside [daysums] ends the function with a fault.  The
    compiled function goes on: the access reaches the memory next to the
    table.  Here the table stands in that memory: [around] gives what lies at
    the indices outside the twelve entries, an access there is served from
    it and noted in [stray], and the function runs to its end.  The
    variables of the function are taken to lie elsewhere. *)

Record table : Type := {
  cells : list Z;
  around : Z -> Z;
  stray : list Z
}.

Definition in_table (t : table) (i : Z) : bool :=
  (0 <=? i) && (i <? Z.of_nat (length (cells t))).

(** [daysums[i]] as an rvalue. *)
Definition table_load (t : table) (i : Z) : Z * table :=
  if in_table t i then (nth (Z.to_nat i) (cells t) 0, t)
  else (around t i,
        {| cells := cells t; around := around t; stray := stray t ++ [i] |}).

(** [daysums[i] = v]. *)
Definition table_store (t : table) (i v : Z) : table :=
  if in_table t i
  then {| cells := replace_nth (cells t) (Z.to_nat i) v;
          around := around t; stray := stray t |}
  else {| cells := cells t;
          around := fun j => if j =? i then v else around t j;
          stray := stray t ++ [i] |}.

(** [daysums[i] += 1;] *)
Definition table_increment (i : Z) (t : table) : result table :=
  let '(d, t) := table_load t i in
  Ok (table_store t i (u32 (d + 1))).

(** [while (daysums[*month] < daynum) *month += 1;] *)
Fixpoint table_search (fuel : nat) (t : table) (daynum month : Z)
  : result (Z * table) :=
  match fuel with
  | O => OutOfFuel
  | S fuel' =>
      let '(d, t) := table_load t month in
      if d <? daynum then table_search fuel' t daynum (u32 (month + 1))
      else Ok (month, t)
  end.

(** [daynum_to_month_day] in the memory [mem]: it returns
    [( *month, *day)] and the indices of the accesses outside the table, in
    order.  Thirteen turns take the search through the table and one entry
    further; [OutOfFuel] stands for a search that goes on in the memory
    around. *)
Definition daynum_to_month_day_around (mem : Z -> Z) (daynum is_leap_year : Z)
  : result (Z * Z * list Z) :=
  let daysums :=
    {| cells := [31; 59; 90; 120; 151; 181; 212; 243; 273; 304; 334; 365];
       around := mem; stray := [] |} in
  daysums <-
    (if is_leap_year =? 0 then Ok daysums
     else for_range 1 13 table_increment daysums) ;;
  ' (month, daysums) <- table_search 13 daysums daynum 0 ;;
  ' (day, daysums) <-
    (if month >? 0 then
       let '(d, daysums) := table_load daysums (u32 (month - 1)) in
       Ok (u32 (daynum - d), daysums)
     else Ok (daynum, daysums)) ;;
  Ok (u32 (month + 1), day, stray daysums).

(** ** Reliability tier (the tail of [main]) *)

Inductive reliability : Type := LIKELY_OK | NOT_RELIABLE | PROBABLY_BAD.

Definition frame_worst_sec_score (frame : list field_t) : Z :=
  fold_left
    (fun worst f => if worst_score f >? worst then worst_score f else worst)
    frame 0.

Definition summary (frame_worst_sec_score : Z) : reliability :=
  if frame_worst_sec_score <? 7 then LIKELY_OK
  else if frame_worst_sec_score <? 10 then NOT_RELIABLE
  else PROBABLY_BAD.

(** ** Printing the frame *)

(** A call of [printf]: the format, as the source writes it, and the integer
    arguments. *)
Inductive printf_call : Type :=
| Printf (format : String.string) (args : list Z).

(** The body of the loop of [print_frame]; the state is [secs] and the calls
    made so far. *)
Definition print_frame_body (bits : list Z) (lb_mod : Z) (i : Z)
  (st : Z * list printf_call) : result (Z * list printf_call) :=
  let '(secs, out) := st in
  let '(secs, out) :=
    if i mod SAMPLES_PER_SEC =? lb_mod
    then (u32 (secs + 1), out ++ [Printf "\n   %03u (%04u): " [secs; i]])
    else (secs, out) in
  b <- load bits i ;;
  Ok (secs, out ++ [Printf "%u" [b]]).

(** [print_frame] returns the calls of [printf] it makes, in order. *)
Definition print_frame (bits : list Z) (samp_idx : Z)
  : result (list printf_call) :=
  let out :=
    [Printf "   Sec Sample          Samples in Second\n" [];
     Printf "   --- ------  ----------------------------------------" []] in
  let secs := 0 in
  let lb_mod := samp_idx mod SAMPLES_PER_SEC in
  ' (secs, out) <-
    for_range samp_idx (u32 (samp_idx + 60 * SAMPLES_PER_SEC))
      (print_frame_body bits lb_mod) (secs, out) ;;
  Ok (out ++ [Printf "\n" []]).

(** ** The decoding part of [main] *)

Definition HOURS : Z := 0.
Definition MINUTES : Z := 1.
Definition DAYNUM : Z := 2.
Definition YEAR : Z := 3.
Definition LYI : Z := 4.
Definition LSW : Z := 5.
Definition DST : Z := 6.

(** [frame[i]] as an rvalue. *)
Definition frame_at (frame : list field_t) (i : Z) : result field_t :=
  if i <? 0 then OutOfBounds i
  else match nth_error frame (Z.to_nat i) with
       | Some f => Ok f
       | None => OutOfBounds i
       end.

(** The sum of the code lengths that the last loop of [main] computes beside
    [frame_worst_sec_score]. *)
Definition total_code_len (frame : list field_t) : Z :=
  fold_left (fun total f => u32 (total + code_len f)) frame 0.

(** What [main] has to report once the buffer is filled. *)
Record report : Type := {
  rep_frame_idx : Z;
  rep_min_val : Z;
  rep_printed : list printf_call;
  rep_score : Z;
  rep_frame : list field_t;
  rep_month : Z;
  rep_day : Z;
  rep_total_code_len : Z;
  rep_frame_worst_sec_score : Z;
  rep_summary : reliability
}.

(** [main] from the call of [find_frame] to the summary: the integers it
    hands to [printf] and the tier it prints. *)
Definition main_after_fill (print_flag : bool) (bits : list Z) : result report :=
  ' (frame_idx, min_val) <- find_frame bits ;;
  printed <- (if print_flag then print_frame bits frame_idx else Ok []) ;;
  ' (score, frame) <- decode_frame bits frame_idx frame ;;
  daynum <- frame_at frame DAYNUM ;;
  lyi <- frame_at frame LYI ;;
  ' (month, day) <- daynum_to_month_day (value daynum) (value lyi) ;;
  let worst := frame_worst_sec_score frame in
  Ok {| rep_frame_idx := frame_idx; rep_min_val := min_val;
        rep_printed := printed; rep_score := score; rep_frame := frame;
        rep_month := month; rep_day := day;
        rep_total_code_len := total_code_len frame;
        rep_frame_worst_sec_score := worst;
        rep_summary := summary worst |}.

(** ** Loading and saving the buffer *)

(** [fread(buf, 1, nmemb, fp)] on a file whose unread content is [file]: the
    items read replace the head of [buf]; the result is the buffer and the
    number of items read. *)
Definition fread (buf : list Z) (nmemb : Z) (file : list Z) : list Z * Z :=
  let n := Nat.min (Z.to_nat nmemb) (length file) in
  (firstn n file ++ skipn n buf, Z.of_nat n).

(** [fill_buffer_file]: [file] is the content of the file, or [None] when it
    cannot be opened and the program exits.  The result is the buffer and
    whether the warning is printed. *)
Definition fill_buffer_file (file : option (list Z)) (bits : list Z)
  : option (list Z * bool) :=
  match file with
  | None => None
  | Some content =>
      let '(bits, n) := fread bits (Z.of_nat (length bits)) content in
      Some (bits, n <? 60 * SAMPLES_PER_SEC)
  end.

(** [save_buffer_file]: the content written, or [None] when the file cannot
    be opened for writing. *)
Definition save_buffer_file (writable : bool) (bits : list Z)
  : option (list Z) :=
  if writable then Some bits else None.

(** ** Sample buffers *)

(** What the array [uint8_t bits[BLEN]] can hold. *)
Definition byte_buffer (bits : list Z) : bool :=
  (Z.of_nat (length bits) =? BLEN)
  && forallb (fun b => (0 <=? b) && (b <? 256)) bits.

(** What the receiver delivers: one carrier level, 0 or 1, per sample. *)
Definition sample_buffer (bits : list Z) : bool :=
  (Z.of_nat (length bits) =? BLEN)
  && forallb (fun b => (b =? 0) || (b =? 1)) bits.

(** ** Vocabulary of the statements *)

(** A sample whose error against either ideal level is at most [m]. *)
Definition level_ok (m b : Z) : Prop :=
  0 <= Z.lxor 0 b <= m /\ 0 <= Z.lxor 1 b <= m.

(** The samples of the second that starts at [samp_idx]. *)
Definition second (bits : list Z) (samp_idx : Z) : list Z :=
  firstn (Z.to_nat SAMPLES_PER_SEC) (skipn (Z.to_nat samp_idx) bits).

(** The initial state of the search: an index outside the buffer and a
    minimum no candidate is expected to reach. *)
Definition find_frame_init : Z * Z :=
  (u32 (BLEN + BLEN), u32 (SAMPLES_PER_SEC * 120)).

(** What the search knows after the candidates below [k]: [lmin] bounds
    their full errors from below, and either nothing was selected yet or
    [min_idx] is the first candidate whose full error is [lmin]. *)
Definition search_inv (bits : list Z) (k : Z) (st : Z * Z) : Prop :=
  0 <= snd st <= snd find_frame_init
  /\ (forall j, 0 <= j < k ->
                exists e, xor_frame_exhaustive bits j = Ok e /\ snd st <= e)
  /\ (st = find_frame_init
      \/ (0 <= fst st < k
          /\ xor_frame_exhaustive bits (fst st) = Ok (snd st)
          /\ forall j, 0 <= j < fst st ->
                       exists e, xor_frame_exhaustive bits j = Ok e
                                 /\ snd st < e)).

Definition second_in_frame (f : const_field) : Prop := 0 <= sec f <= 59.

Definition Zsum (l : list Z) : Z := fold_right Z.add 0 l.
Definition Zmax (l : list Z) : Z := fold_right Z.max 0 l.

(** The weighted sum of the classified bits [rs] of the code [code]. *)
Definition weighted_sum (code : list code_t) (rs : list (Z * Z)) : Z :=
  Zsum (map (fun cr => weight (fst cr) * fst (snd cr)) (combine code rs)).

(** [rs] lists what [decode_sec] returns at the positions of [code]. *)
Definition classified (bits : list Z) (frame_idx : Z) (code : list code_t)
  (rs : list (Z * Z)) : Prop :=
  Forall2 (fun c r => decode_sec bits (code_sample frame_idx c) = Ok r) code rs.

(** A code table the decoder can run on: its seconds lie in the frame and
    neither the weights nor the scores can wrap a [uint32_t]. *)
Definition code_ok (code : list code_t) : bool :=
  forallb (fun c => (0 <=? bit c) && (bit c <=? 59) && (0 <=? weight c)) code
  && (Zsum (map weight code) <? 2 ^ 32)
  && (Z.of_nat (length code) <? 2 ^ 16).

Definition not_marker (bits : list Z) (frame_idx : Z) (c : code_t) : Prop :=
  exists r s, decode_sec bits (code_sample frame_idx c) = Ok (r, s) /\ r <> 2.

Definition is_marker (bits : list Z) (frame_idx : Z) (c : code_t) : Prop :=
  exists s, decode_sec bits (code_sample frame_idx c) = Ok (2, s).

Definition code_in_frame (code : list code_t) : Prop :=
  Forall (fun c => 0 <= bit c <= 59) code.

(** The month and the day of a day of a common year lie in the calendar. *)
Definition common_year_date (daynum : Z) : bool :=
  match daynum_to_month_day daynum 0 with
  | Ok (month, day) =>
      (1 <=? month) && (month <=? 12) && (1 <=? day) && (day <=? 31)
  | _ => false
  end.

(** The score of the second that starts at [samp_idx] against the ideal
    waveform of [symbol]: 0 for a zero, 1 for a one, 2 for a mark. *)
Definition symbol_score (bits : list Z) (samp_idx symbol : Z) : result Z :=
  if symbol =? 0 then xor_zero bits samp_idx
  else if symbol =? 1 then xor_one bits samp_idx
  else xor_mark bits samp_idx.

Fixpoint sum_scores (scores : list (result Z)) : result Z :=
  match scores with
  | [] => Ok 0
  | score :: rest => s <- score ;; t <- sum_scores rest ;; Ok (s + t)
  end.

(** The cumulative error of the candidate [offset]: the sum, over the 18
    entries of [frame_const_fields], of the score of the second that the
    entry names, [offset + sec * SAMPLES_PER_SEC], against the symbol that
    the entry expects there.  It is stated on the symbol matcher alone and
    owes nothing to [xor_frame]. *)
Definition cumulative_error (bits : list Z) (offset : Z) : result Z :=
  sum_scores
    (map (fun f => symbol_score bits (offset + sec f * SAMPLES_PER_SEC) (type f))
       frame_const_fields).

(** ** Test buffers *)

(** Two minutes of low carrier. *)
Definition zero_buffer : list Z := repeat 0 (Z.to_nat BLEN).

(** Samples 8..13 high, 14..19 low, 20..39 high: six errors against the
    ideal zero and six against the ideal one. *)
Definition tie_buffer : list Z :=
  repeat 0 8 ++ repeat 1 6 ++ repeat 0 6 ++ repeat 1 20
    ++ repeat 0 (Z.to_nat BLEN - 40).

(** The ideal second of a symbol: a mark is 80% zeros followed by 20% ones, a
    zero is 20% zeros followed by 80% ones, a one is half and half. *)
Definition ideal_second (symbol : Z) : list Z :=
  if symbol =? 0 then repeat 0 8 ++ repeat 1 32
  else if symbol =? 1 then repeat 0 20 ++ repeat 1 20
  else repeat 0 32 ++ repeat 1 8.

(** A frame that says 17:42, with every other bit zero. *)
Definition ideal_frame : list Z :=
  [2; 1; 0; 0; 0; 0; 0; 1; 0; 2;
   0; 0; 0; 1; 0; 0; 1; 1; 1; 2;
   0; 0; 0; 0; 0; 0; 0; 0; 0; 2;
   0; 0; 0; 0; 0; 0; 0; 0; 0; 2;
   0; 0; 0; 0; 0; 0; 0; 0; 0; 2;
   0; 0; 0; 0; 0; 0; 0; 0; 0; 2].

Definition ideal_buffer : list Z :=
  flat_map ideal_second (ideal_frame ++ ideal_frame).

(** A second as far from every template as a second can be, followed by
    low carrier. *)
Definition worst_buffer : list Z :=
  repeat 1 8 ++ repeat 1 6 ++ repeat 0 6 ++ repeat 1 6 ++ repeat 0 6
    ++ repeat 0 8 ++ repeat 0 (Z.to_nat BLEN - 40).

(** The value of a result, or [d] for a fault. *)
Definition result_or {A : Type} (d : A) (m : result A) : A :=
  match m with
  | Ok a => a
  | _ => d
  end.

(** What [decode_frame] returns on [ideal_buffer] at offset 0. *)
Definition ideal_decode : Z * list field_t :=
  result_or (0, []) (decode_frame ideal_buffer 0 frame).

(** What [decode_frame] returns on [ideal_buffer] one second late. *)
Definition shifted_decode : Z * list field_t :=
  result_or (0, []) (decode_frame ideal_buffer 40 frame).

(** The ideal frame twice, with the first sample of the buffer high: the
    first minute is off by one sample, the second minute is perfect. *)
Definition late_buffer : list Z := 1 :: tl ideal_buffer.

(** A buffer of bytes that are no carrier levels. *)
Definition saturated_buffer : list Z := repeat 255 (Z.to_nat BLEN).

(** ** Vocabulary of the further properties *)

(** The [len] samples of the buffer from [start] on. *)
Definition span (bits : list Z) (start len : Z) : list Z :=
  firstn (Z.to_nat len) (skipn (Z.to_nat start) bits).

(** How many samples of [l] are at the level [v]. *)
Definition count_level (v : Z) (l : list Z) : Z :=
  Z.of_nat (count_occ Z.eq_dec l v).

(** The errors of the samples [w] of one second against the template of
    [zero_len] low samples followed by [one_len] high ones. *)
Definition template_errors (zero_len one_len : Z) (w : list Z) : Z :=
  Zsum (map (Z.lxor 0) (firstn (Z.to_nat zero_len) w))
  + Zsum (map (Z.lxor 1)
            (firstn (Z.to_nat one_len) (skipn (Z.to_nat zero_len) w))).

(** What [decode_sec] makes of the samples [w] of one second. *)
Definition classify_second (w : list Z) : Z * Z :=
  let zero_score := template_errors 8 32 w in
  let one_score := template_errors 20 20 w in
  let mark_score := template_errors 32 8 w in
  let '(best_type, lscore) :=
    if one_score <? zero_score then (1, one_score) else (0, zero_score) in
  if mark_score <? lscore then (2, mark_score) else (best_type, lscore).

(** The field [f'] is the field [f] with the results of [decode_field]
    written in. *)
Definition decoded_as (bits : list Z) (frame_idx : Z) (f f' : field_t) : Prop :=
  decode_field bits frame_idx (code f)
  = Ok (value f', score f', worst_score f')
  /\ name f' = name f /\ val_width f' = val_width f
  /\ code f' = code f /\ code_len f' = code_len f.

(** A position read as a zero or a one with fewer than [bound] errors. *)
Definition read_below (bits : list Z) (frame_idx bound : Z) (c : code_t) : Prop :=
  exists r s, decode_sec bits (code_sample frame_idx c) = Ok (r, s)
              /\ r <> 2 /\ s < bound.

(** The lengths of the months of a common year. *)
Definition month_lengths : list Z := [31; 28; 31; 30; 31; 30; 31; 31; 30; 31; 30; 31].

(** The days of a common year before the first of [month]. *)
Definition days_before (month : Z) : Z :=
  Zsum (firstn (Z.to_nat (month - 1)) month_lengths).

(** [daynum] is the [day]-th day of [month] in a common year. *)
Definition calendar_date (daynum month day : Z) : bool :=
  (1 <=? month) && (month <=? 12)
  && (1 <=? day) && (day <=? nth (Z.to_nat (month - 1)) month_lengths 0)
  && (days_before month + day =? daynum).

(** The converter returns for [daynum] a month and a day that make
    [daynum]. *)
Definition converts_to_date (daynum : Z) : bool :=
  match daynum_to_month_day daynum 0 with
  | Ok (month, day) => calendar_date daynum month day
  | _ => false
  end.

(** The calls of [printf] for [n] rows of samples, from the second [secs]
    at the sample [i] on. *)
Fixpoint rows (bits : list Z) (n : nat) (secs i : Z) : list printf_call :=
  match n with
  | O => []
  | S n' =>
      Printf "\n   %03u (%04u): " [secs; i]
        :: map (fun b => Printf "%u" [b]) (second bits i)
        ++ rows bits n' (secs + 1) (i + SAMPLES_PER_SEC)
  end.

(** The samples of a perfectly received sequence of symbols, one ideal second
    for each. *)
Definition encode (symbols : list Z) : list Z := flat_map ideal_second symbols.

(** Two minutes of symbols: zeros, ones and marks. *)
Definition symbols_ok (symbols : list Z) : bool :=
  (Z.of_nat (length symbols) =? BUF_LEN_IN_SEC)
  && forallb (fun s => (0 <=? s) && (s <=? 2)) symbols.

(** From the second [k] on the symbols hold the fixed zeros and marks of a
    frame. *)
Definition fixed_positions_ok (symbols : list Z) (k : Z) : bool :=
  forallb (fun f => nth (Z.to_nat (k + sec f)) symbols 0 =? type f)
    frame_const_fields.

(** The bits that the code [code] names in the frame that starts at the
    second [k] are zeros and ones. *)
Definition data_bits_ok (symbols : list Z) (k : Z) (code : list code_t) : bool :=
  forallb (fun c => let s := nth (Z.to_nat (k + bit c)) symbols 0 in
                    (s =? 0) || (s =? 1)) code.

(** The value that the bits of the code [code] carry. *)
Definition transmitted_value (symbols : list Z) (k : Z) (code : list code_t) : Z :=
  Zsum (map (fun c => weight c * nth (Z.to_nat (k + bit c)) symbols 0) code).

(** The errors of the samples [w] of one second against the ideal waveform
    of [symbol]. *)
Definition template_errors_for (symbol : Z) (w : list Z) : Z :=
  if symbol =? 0 then template_errors 8 32 w
  else if symbol =? 1 then template_errors 20 20 w
  else template_errors 32 8 w.

(** Some fixed second of the candidate [offset], among those that [fields]
    names, differs from its ideal waveform. *)
Fixpoint has_fixed_error (bits : list Z) (offset : Z)
  (fields : list const_field) : bool :=
  match fields with
  | [] => false
  | f :: rest =>
      if 0 <? template_errors_for (type f)
                (second bits (offset + sec f * SAMPLES_PER_SEC))
      then true
      else has_fixed_error bits offset rest
  end.

(** * Proofs *)

(** ** The result monad and the loops *)

Lemma bind_Ok {A B : Type} (m : result A) (k : A -> result B) (b : B) :
  bind m k = Ok b -> exists a, m = Ok a /\ k a = Ok b.
Proof.
  destruct m as [a | i | ]; simpl; intros H; try discriminate.
  exists a; split; [reflexivity | exact H].
Qed.

Lemma u32_small (x : Z) : 0 <= x < 2 ^ 32 -> u32 x = x.
Proof. intros H. unfold u32. apply Z.mod_small. exact H. Qed.

Lemma u32_range (x : Z) : 0 <= u32 x < 2 ^ 32.
Proof. unfold u32. apply Z.mod_pos_bound. reflexivity. Qed.

Lemma load_in_bounds (a : list Z) (i : Z) :
  0 <= i < Z.of_nat (length a) -> exists v, load a i = Ok v /\ In v a.
Proof.
  intros [Hlo Hhi]. unfold load.
  destruct (Z.ltb_spec i 0) as [Hneg | _]; [lia | ].
  destruct (nth_error a (Z.to_nat i)) as [v | ] eqn:Hnth.
  - exists v. split; [reflexivity | ]. eapply nth_error_In; eassumption.
  - apply nth_error_None in Hnth. lia.
Qed.

Lemma load_Ok_bounds (a : list Z) (i v : Z) :
  load a i = Ok v -> 0 <= i < Z.of_nat (length a).
Proof.
  unfold load. destruct (Z.ltb_spec i 0) as [Hneg | Hpos]; [discriminate | ].
  destruct (nth_error a (Z.to_nat i)) as [w | ] eqn:Hnth; [ | discriminate].
  intros _. assert (Hlt : (Z.to_nat i < length a)%nat).
  { apply nth_error_Some. congruence. }
  lia.
Qed.

(** The invariant rule of the counted loop. *)
Lemma for_loop_inv {S : Type} (Inv : Z -> S -> Prop)
  (body : Z -> S -> result S) :
  forall (n : nat) (lo : Z) (s : S),
    (forall i t, lo <= i < lo + Z.of_nat n -> Inv i t ->
                 exists t', body i t = Ok t' /\ Inv (i + 1) t') ->
    Inv lo s ->
    exists s', for_loop n lo body s = Ok s' /\ Inv (lo + Z.of_nat n) s'.
Proof.
  induction n as [ | n IH]; intros lo s Hbody Hinv.
  - exists s. split; [reflexivity | ]. now replace (lo + Z.of_nat 0) with lo by lia.
  - destruct (Hbody lo s) as (t & Ht & Hinv'); [lia | assumption | ].
    destruct (IH (lo + 1) t) as (s' & Hs' & Hfin).
    + intros i u Hi Hu. apply Hbody; [lia | assumption].
    + assumption.
    + exists s'. split.
      * simpl. rewrite Ht. exact Hs'.
      * now replace (lo + Z.of_nat (Datatypes.S n)) with (lo + 1 + Z.of_nat n) by lia.
Qed.

(** Two bodies that agree wherever an invariant holds run the same loop. *)
Lemma for_loop_agree {S : Type} (Inv : Z -> S -> Prop)
  (body1 body2 : Z -> S -> result S) :
  forall (n : nat) (lo : Z) (s : S),
    (forall i t, lo <= i < lo + Z.of_nat n -> Inv i t ->
                 body1 i t = body2 i t /\
                 forall t', body1 i t = Ok t' -> Inv (i + 1) t') ->
    Inv lo s ->
    for_loop n lo body1 s = for_loop n lo body2 s.
Proof.
  induction n as [ | n IH]; intros lo s Hbody Hinv; [reflexivity | ].
  simpl. destruct (Hbody lo s) as [Heq Hnext]; [lia | assumption | ].
  rewrite <- Heq. destruct (body1 lo s) as [t | i | ]; simpl; try reflexivity.
  apply IH.
  - intros i u Hi Hu. apply Hbody; [lia | assumption].
  - apply Hnext. reflexivity.
Qed.

(** ** Sample values *)

Lemma level_ok_bit (b : Z) : b = 0 \/ b = 1 -> level_ok 1 b.
Proof. intros [-> | ->]; unfold level_ok; simpl; lia. Qed.

Lemma level_ok_byte (b : Z) : 0 <= b < 256 -> level_ok 255 b.
Proof.
  intros Hb. unfold level_ok. rewrite Z.lxor_0_l. split; [lia | ].
  assert (Hnn : 0 <= Z.lxor 1 b) by (apply Z.lxor_nonneg; lia).
  split; [exact Hnn | ].
  assert (Hlog : Z.log2 (Z.lxor 1 b) < 8).
  { eapply Z.le_lt_trans; [apply Z.log2_lxor; lia | ].
    apply Z.max_lub_lt; [reflexivity | ].
    destruct (Z.eq_dec b 0) as [-> | Hnz]; [reflexivity | ].
    apply Z.log2_lt_pow2; lia. }
  destruct (Z.eq_dec (Z.lxor 1 b) 0) as [Hz | Hnz]; [lia | ].
  apply Z.log2_lt_pow2 in Hlog; lia.
Qed.

Lemma byte_buffer_spec (bits : list Z) :
  byte_buffer bits = true ->
  Z.of_nat (length bits) = BLEN /\ Forall (level_ok 255) bits.
Proof.
  unfold byte_buffer. intros H. apply andb_true_iff in H as [Hlen Hall].
  split; [now apply Z.eqb_eq | ].
  apply Forall_forall. intros b Hb.
  rewrite forallb_forall in Hall. specialize (Hall b Hb).
  apply level_ok_byte. lia.
Qed.

Lemma sample_buffer_spec (bits : list Z) :
  sample_buffer bits = true ->
  Z.of_nat (length bits) = BLEN /\ Forall (level_ok 1) bits.
Proof.
  unfold sample_buffer. intros H. apply andb_true_iff in H as [Hlen Hall].
  split; [now apply Z.eqb_eq | ].
  apply Forall_forall. intros b Hb.
  rewrite forallb_forall in Hall. specialize (Hall b Hb).
  apply level_ok_bit. lia.
Qed.

Lemma sample_buffer_byte_buffer (bits : list Z) :
  sample_buffer bits = true -> byte_buffer bits = true.
Proof.
  unfold sample_buffer, byte_buffer. intros H.
  apply andb_true_iff in H as [Hlen Hall]. rewrite Hlen. simpl.
  rewrite forallb_forall in *. intros b Hb. specialize (Hall b Hb). lia.
Qed.

(** ** Scores of in-bounds seconds *)

Lemma SAMPLES_PER_SEC_val : SAMPLES_PER_SEC = 40.
Proof. reflexivity. Qed.

Lemma BLEN_val : BLEN = 4800.
Proof. reflexivity. Qed.

Section InBounds.

Variable bits : list Z.
Variable m : Z.
Hypothesis Hm : 0 <= m <= 255.
Hypothesis Hlen : Z.of_nat (length bits) = BLEN.
Hypothesis Hlevels : Forall (level_ok m) bits.

Lemma sum_loop_ok (c : Z) (n : nat) (lo acc : Z) :
  c = 0 \/ c = 1 ->
  0 <= lo -> lo + Z.of_nat n <= BLEN ->
  0 <= acc -> acc + Z.of_nat n * m < 2 ^ 32 ->
  exists s,
    for_loop n lo (fun i sum => b <- load bits i ;; Ok (u32 (sum + Z.lxor c b)))
      acc = Ok s
    /\ acc <= s <= acc + Z.of_nat n * m.
Proof.
  intros Hc Hlo Hhi Hacc Hmax.
  destruct (for_loop_inv (fun i s => acc <= s <= acc + (i - lo) * m)
              (fun i sum => b <- load bits i ;; Ok (u32 (sum + Z.lxor c b)))
              n lo acc) as (s & Hs & Hinv).
  - intros i t Hi Ht.
    destruct (load_in_bounds bits i) as (b & Hb & Hin); [lia | ].
    rewrite Hb. simpl.
    assert (Hlev : 0 <= Z.lxor c b <= m).
    { rewrite Forall_forall in Hlevels. specialize (Hlevels b Hin).
      destruct Hlevels as [H0 H1]. destruct Hc as [-> | ->]; assumption. }
    exists (t + Z.lxor c b). split; [ | nia].
    rewrite u32_small; [reflexivity | nia].
  - lia.
  - exists s. split; [exact Hs | ].
    replace (lo + Z.of_nat n - lo) with (Z.of_nat n) in Hinv by lia. exact Hinv.
Qed.

Lemma xor_sec_ok (samp_idx zero_len one_len : Z) :
  0 <= samp_idx -> 0 <= zero_len -> 0 <= one_len ->
  samp_idx + zero_len + one_len <= BLEN ->
  exists s, xor_sec bits samp_idx zero_len one_len = Ok s
            /\ 0 <= s <= (zero_len + one_len) * m.
Proof.
  intros Hi Hz Ho Hend. rewrite BLEN_val in Hend. unfold xor_sec, for_range.
  rewrite (u32_small (samp_idx + zero_len)) by lia.
  rewrite (u32_small (samp_idx + zero_len + one_len)) by lia.
  destruct (sum_loop_ok 0 (Z.to_nat (samp_idx + zero_len - samp_idx)) samp_idx 0)
    as (s1 & Hs1 & Hb1); try rewrite BLEN_val; try lia; [nia | ].
  rewrite Hs1. simpl.
  destruct (sum_loop_ok 1
              (Z.to_nat (samp_idx + zero_len + one_len - (samp_idx + zero_len)))
              (samp_idx + zero_len) s1)
    as (s2 & Hs2 & Hb2); try rewrite BLEN_val; try lia; [nia | ].
  exists s2. split; [exact Hs2 | nia].
Qed.

Lemma xor_zero_ok (samp_idx : Z) :
  0 <= samp_idx <= BLEN - SAMPLES_PER_SEC ->
  exists s, xor_zero bits samp_idx = Ok s /\ 0 <= s <= SAMPLES_PER_SEC * m.
Proof.
  rewrite BLEN_val, SAMPLES_PER_SEC_val. intros H. unfold xor_zero.
  destruct (xor_sec_ok samp_idx (200 / SAMP_PERIOD) (800 / SAMP_PERIOD))
    as (s & Hs & Hb); try rewrite BLEN_val;
    change (200 / SAMP_PERIOD) with 8 in *;
    change (800 / SAMP_PERIOD) with 32 in *; try lia.
  exists s. split; [exact Hs | lia].
Qed.

Lemma xor_one_ok (samp_idx : Z) :
  0 <= samp_idx <= BLEN - SAMPLES_PER_SEC ->
  exists s, xor_one bits samp_idx = Ok s /\ 0 <= s <= SAMPLES_PER_SEC * m.
Proof.
  rewrite BLEN_val, SAMPLES_PER_SEC_val. intros H. unfold xor_one.
  destruct (xor_sec_ok samp_idx (500 / SAMP_PERIOD) (500 / SAMP_PERIOD))
    as (s & Hs & Hb); try rewrite BLEN_val;
    change (500 / SAMP_PERIOD) with 20 in *; try lia.
  exists s. split; [exact Hs | lia].
Qed.

Lemma xor_mark_ok (samp_idx : Z) :
  0 <= samp_idx <= BLEN - SAMPLES_PER_SEC ->
  exists s, xor_mark bits samp_idx = Ok s /\ 0 <= s <= SAMPLES_PER_SEC * m.
Proof.
  rewrite BLEN_val, SAMPLES_PER_SEC_val. intros H. unfold xor_mark.
  destruct (xor_sec_ok samp_idx (800 / SAMP_PERIOD) (200 / SAMP_PERIOD))
    as (s & Hs & Hb); try rewrite BLEN_val;
    change (200 / SAMP_PERIOD) with 8 in *;
    change (800 / SAMP_PERIOD) with 32 in *; try lia.
  exists s. split; [exact Hs | lia].
Qed.

End InBounds.

(** ** The symbol matcher on one second *)

Lemma load_second_const (bits : list Z) (samp_idx v k : Z) :
  0 <= samp_idx ->
  second bits samp_idx = repeat v (Z.to_nat SAMPLES_PER_SEC) ->
  samp_idx <= k < samp_idx + SAMPLES_PER_SEC ->
  load bits k = Ok v.
Proof.
  intros Hi Hsec Hk. unfold load.
  destruct (Z.ltb_spec k 0) as [Hneg | _]; [lia | ].
  assert (Hnth : nth_error (second bits samp_idx) (Z.to_nat (k - samp_idx))
                 = nth_error bits (Z.to_nat k)).
  { unfold second. rewrite nth_error_firstn, nth_error_skipn.
    replace (Z.to_nat samp_idx + Z.to_nat (k - samp_idx))%nat
      with (Z.to_nat k) by lia.
    destruct (Nat.ltb_spec (Z.to_nat (k - samp_idx)) (Z.to_nat SAMPLES_PER_SEC))
      as [_ | Hge]; [reflexivity | lia]. }
  rewrite <- Hnth, Hsec, nth_error_repeat by lia. reflexivity.
Qed.

Lemma sum_loop_const (bits : list Z) (c v : Z) (n : nat) (lo acc : Z) :
  (forall k, lo <= k < lo + Z.of_nat n -> load bits k = Ok v) ->
  0 <= acc -> 0 <= Z.lxor c v -> acc + Z.of_nat n * Z.lxor c v < 2 ^ 32 ->
  for_loop n lo (fun i sum => b <- load bits i ;; Ok (u32 (sum + Z.lxor c b))) acc
  = Ok (acc + Z.of_nat n * Z.lxor c v).
Proof.
  intros Hload Hacc Hx Hmax.
  destruct (for_loop_inv (fun i s => s = acc + (i - lo) * Z.lxor c v)
              (fun i sum => b <- load bits i ;; Ok (u32 (sum + Z.lxor c b)))
              n lo acc) as (s & Hs & Hinv).
  - intros i t Hi ->. rewrite (Hload i Hi). simpl.
    exists (acc + (i + 1 - lo) * Z.lxor c v). split; [ | reflexivity].
    rewrite u32_small by nia. f_equal. lia.
  - lia.
  - rewrite Hs, Hinv. f_equal. f_equal. f_equal. lia.
Qed.

Lemma xor_sec_const (bits : list Z) (samp_idx zero_len one_len v : Z) :
  0 <= Z.lxor 0 v -> 0 <= Z.lxor 1 v ->
  0 <= samp_idx -> 0 <= zero_len -> 0 <= one_len ->
  samp_idx + zero_len + one_len < 2 ^ 32 ->
  zero_len * Z.lxor 0 v + one_len * Z.lxor 1 v < 2 ^ 32 ->
  (forall k, samp_idx <= k < samp_idx + zero_len + one_len ->
             load bits k = Ok v) ->
  xor_sec bits samp_idx zero_len one_len
  = Ok (zero_len * Z.lxor 0 v + one_len * Z.lxor 1 v).
Proof.
  intros H0 H1 Hi Hz Ho Hend Hmax Hload. unfold xor_sec, for_range.
  rewrite (u32_small (samp_idx + zero_len)) by lia.
  rewrite (u32_small (samp_idx + zero_len + one_len)) by lia.
  set (n0 := Z.to_nat (samp_idx + zero_len - samp_idx)).
  set (n1 := Z.to_nat (samp_idx + zero_len + one_len - (samp_idx + zero_len))).
  assert (Hn0 : Z.of_nat n0 = zero_len) by lia.
  assert (Hn1 : Z.of_nat n1 = one_len) by lia.
  rewrite (sum_loop_const bits 0 v n0 samp_idx 0).
  - cbn [bind]. rewrite (sum_loop_const bits 1 v n1 (samp_idx + zero_len)).
    + rewrite Hn0, Hn1. reflexivity.
    + intros k Hk. apply Hload. lia.
    + nia.
    + exact H1.
    + rewrite Hn0, Hn1. nia.
  - intros k Hk. apply Hload. lia.
  - lia.
  - exact H0.
  - rewrite Hn0. nia.
Qed.

(** What [decode_sec] returns, from the three template scores. *)
Lemma decode_sec_cases (bits : list Z) (samp_idx z o k : Z) :
  xor_zero bits samp_idx = Ok z ->
  xor_one bits samp_idx = Ok o ->
  xor_mark bits samp_idx = Ok k ->
  exists r s,
    decode_sec bits samp_idx = Ok (r, s)
    /\ s = Z.min (Z.min z o) k
    /\ ((r = 0 /\ s = z /\ z <= o /\ z <= k)
        \/ (r = 1 /\ s = o /\ o < z /\ o <= k)
        \/ (r = 2 /\ s = k /\ k < z /\ k < o)).
Proof.
  intros Hz Ho Hk. unfold decode_sec. rewrite Hz, Ho, Hk. simpl.
  destruct (Z.ltb_spec o z) as [Hoz | Hzo].
  - destruct (Z.ltb_spec k o) as [Hko | Hok].
    + exists 2, k. split; [reflexivity | ]. split; [lia | ]. right; right. lia.
    + exists 1, o. split; [reflexivity | ]. split; [lia | ]. right; left. lia.
  - destruct (Z.ltb_spec k z) as [Hkz | Hzk].
    + exists 2, k. split; [reflexivity | ]. split; [lia | ]. right; right. lia.
    + exists 0, z. split; [reflexivity | ]. split; [lia | ]. left. lia.
Qed.

(** Every in-bounds second classifies, with a score within the second. *)
Lemma decode_sec_ok (bits : list Z) (m samp_idx : Z) :
  0 <= m <= 255 ->
  Z.of_nat (length bits) = BLEN -> Forall (level_ok m) bits ->
  0 <= samp_idx <= BLEN - SAMPLES_PER_SEC ->
  exists r s, decode_sec bits samp_idx = Ok (r, s)
              /\ (r = 0 \/ r = 1 \/ r = 2)
              /\ 0 <= s <= SAMPLES_PER_SEC * m.
Proof.
  intros Hm Hlen Hlev Hi.
  destruct (xor_zero_ok bits m Hm Hlen Hlev samp_idx Hi) as (z & Hz & Hzb).
  destruct (xor_one_ok bits m Hm Hlen Hlev samp_idx Hi) as (o & Ho & Hob).
  destruct (xor_mark_ok bits m Hm Hlen Hlev samp_idx Hi) as (k & Hk & Hkb).
  destruct (decode_sec_cases bits samp_idx z o k Hz Ho Hk)
    as (r & s & Hd & Hs & Hr).
  exists r, s. split; [exact Hd | ]. split; lia.
Qed.

(** ** The frame synchroniser *)

Lemma frame_const_fields_in_frame : Forall second_in_frame frame_const_fields.
Proof. unfold frame_const_fields. repeat constructor; simpl; lia. Qed.

Section FrameSync.

Variable bits : list Z.
Variable m : Z.
Hypothesis Hm : 0 <= m <= 255.
Hypothesis Hlen : Z.of_nat (length bits) = BLEN.
Hypothesis Hlevels : Forall (level_ok m) bits.

Lemma xor_frame_case_ok (samp_idx : Z) (f : const_field) (sum : Z) :
  0 <= samp_idx <= BLEN - SAMPLES_PER_SEC * 60 ->
  second_in_frame f ->
  0 <= sum -> sum + SAMPLES_PER_SEC * m < 2 ^ 32 ->
  exists sum', xor_frame_case bits samp_idx f sum = Ok sum'
               /\ sum <= sum' <= sum + SAMPLES_PER_SEC * m.
Proof.
  unfold second_in_frame. rewrite BLEN_val, SAMPLES_PER_SEC_val.
  intros Hi Hf Hsum Hmax. unfold xor_frame_case.
  rewrite SAMPLES_PER_SEC_val, u32_small by lia.
  destruct (type f =? 0).
  - destruct (xor_zero_ok bits m Hm Hlen Hlevels (samp_idx + sec f * 40))
      as (s & Hs & Hb); [rewrite BLEN_val, SAMPLES_PER_SEC_val; lia | ].
    rewrite SAMPLES_PER_SEC_val in Hb. rewrite Hs. cbn [bind].
    exists (sum + s). rewrite u32_small by lia. split; [reflexivity | lia].
  - destruct (type f =? 2).
    + destruct (xor_mark_ok bits m Hm Hlen Hlevels (samp_idx + sec f * 40))
        as (s & Hs & Hb); [rewrite BLEN_val, SAMPLES_PER_SEC_val; lia | ].
      rewrite SAMPLES_PER_SEC_val in Hb. rewrite Hs. cbn [bind].
      exists (sum + s). rewrite u32_small by lia. split; [reflexivity | lia].
    + exists sum. split; [reflexivity | lia].
Qed.

(** The pruned loop against the exhaustive one: the pruned result is the
    full sum whenever the full sum does not exceed [min_val], and exceeds
    [min_val] otherwise. *)
Lemma xor_frame_loop_spec (samp_idx min_val : Z) :
  0 <= samp_idx <= BLEN - SAMPLES_PER_SEC * 60 ->
  forall (fields : list const_field) (sum : Z),
    Forall second_in_frame fields ->
    0 <= sum ->
    sum + Z.of_nat (length fields) * (SAMPLES_PER_SEC * m) < 2 ^ 32 ->
    exists full r,
      xor_frame_exhaustive_loop bits samp_idx fields sum = Ok full
      /\ xor_frame_loop bits samp_idx min_val fields sum = Ok r
      /\ sum <= full <= sum + Z.of_nat (length fields) * (SAMPLES_PER_SEC * m)
      /\ (full <= min_val -> r = full)
      /\ (min_val < full -> min_val < r).
Proof.
  intros Hi. induction fields as [ | f rest IH]; intros sum Hall Hsum Hmax.
  - exists sum, sum. simpl. repeat split; lia.
  - inversion Hall as [ | f' rest' Hf Hrest]; subst.
    rewrite SAMPLES_PER_SEC_val in *.
    change (length (f :: rest)) with (Datatypes.S (length rest)) in *.
    destruct (xor_frame_case_ok samp_idx f sum) as (sum' & Hcase & Hb);
      rewrite ?SAMPLES_PER_SEC_val; try assumption; try lia.
    rewrite SAMPLES_PER_SEC_val in Hb.
    destruct (IH sum') as (full & r & Hfull & Hr & Hfb & Hle & Hgt);
      [assumption | lia | lia | ].
    cbn [xor_frame_exhaustive_loop xor_frame_loop]. rewrite Hcase. cbn [bind]. rewrite Hfull.
    destruct (Z.gtb_spec sum' min_val) as [Hprune | Hkeep].
    + exists full, sum'. repeat split; try lia.
    + exists full, r. rewrite Hr. repeat split; try lia.
Qed.

Lemma xor_frame_spec (samp_idx min_val : Z) :
  0 <= samp_idx <= BLEN - SAMPLES_PER_SEC * 60 ->
  exists full r,
    xor_frame_exhaustive bits samp_idx = Ok full
    /\ xor_frame bits samp_idx min_val = Ok r
    /\ 0 <= full <= 18 * SAMPLES_PER_SEC * m
    /\ (full <= min_val -> r = full)
    /\ (min_val < full -> min_val < r).
Proof.
  intros Hi.
  destruct (xor_frame_loop_spec samp_idx min_val Hi frame_const_fields 0
              frame_const_fields_in_frame)
    as (full & r & Hfull & Hr & Hb & Hle & Hgt).
  - lia.
  - rewrite SAMPLES_PER_SEC_val.
    change (Z.of_nat (length frame_const_fields)) with 18. lia.
  - exists full, r. rewrite SAMPLES_PER_SEC_val in *.
    change (Z.of_nat (length frame_const_fields)) with 18 in Hb.
    repeat split; try assumption; lia.
Qed.

(** On a candidate in range the pruned body does what the exhaustive body
    does. *)
Lemma find_frame_body_exhaustive (samp_idx : Z) (st : Z * Z) :
  0 <= samp_idx <= BLEN - SAMPLES_PER_SEC * 60 ->
  find_frame_body bits samp_idx st = find_frame_exhaustive_body bits samp_idx st.
Proof.
  intros Hi. destruct st as [min_idx lmin].
  destruct (xor_frame_spec samp_idx lmin Hi)
    as (full & r & Hfull & Hr & Hb & Hle & Hgt).
  unfold find_frame_body, find_frame_exhaustive_body.
  rewrite Hfull, Hr. cbn [bind].
  destruct (Z.ltb_spec r lmin) as [Hrl | Hrl];
    destruct (Z.ltb_spec full lmin) as [Hfl | Hfl];
    try reflexivity.
  - rewrite Hle by lia. reflexivity.
  - rewrite Hle in Hrl; lia.
  - lia.
Qed.

Lemma find_frame_eq_exhaustive : find_frame bits = find_frame_exhaustive bits.
Proof.
  unfold find_frame, find_frame_exhaustive, for_range.
  apply (for_loop_agree (fun _ _ => True)); [ | exact I].
  intros i t Hi _. split; [ | intros; exact I].
  apply find_frame_body_exhaustive.
  rewrite BLEN_val, SAMPLES_PER_SEC_val in *.
  change (u32 (4800 - 40 * 60)) with 2400 in Hi. lia.
Qed.

Lemma find_frame_body_inv (k : Z) (st : Z * Z) :
  0 <= k <= BLEN - SAMPLES_PER_SEC * 60 ->
  search_inv bits k st ->
  exists st', find_frame_body bits k st = Ok st' /\ search_inv bits (k + 1) st'.
Proof.
  intros Hk (Hrange & Hlow & Hsel). destruct st as [min_idx lmin].
  simpl fst in *. simpl snd in *.
  destruct (xor_frame_spec k lmin Hk)
    as (full & r & Hfull & Hr & Hb & Hle & Hgt).
  unfold find_frame_body. rewrite Hr. cbn [bind].
  destruct (Z.ltb_spec r lmin) as [Hrl | Hrl].
  - assert (Hrf : r = full) by (apply Hle; lia). subst r.
    exists (k, full). split; [reflexivity | ].
    unfold search_inv. simpl fst. simpl snd. split; [lia | ]. split.
    + intros j Hj. destruct (Z.eq_dec j k) as [-> | Hne].
      * exists full. split; [exact Hfull | lia].
      * destruct (Hlow j) as (e & He & Hle'); [lia | ].
        exists e. split; [exact He | lia].
    + right. split; [lia | ]. split; [exact Hfull | ].
      intros j Hj. destruct (Hlow j Hj) as (e & He & Hle').
      exists e. split; [exact He | lia].
  - exists (min_idx, lmin). split; [reflexivity | ].
    unfold search_inv. simpl fst. simpl snd. split; [lia | ]. split.
    + intros j Hj. destruct (Z.eq_dec j k) as [-> | Hne].
      * exists full. split; [exact Hfull | ].
        destruct (Z_le_gt_dec full lmin) as [Hfl | Hfl]; [ | lia].
        rewrite <- (Hle Hfl). exact Hrl.
      * apply Hlow. lia.
    + destruct Hsel as [Hinit | (Hidx & Herr & Hfirst)]; [left; exact Hinit | ].
      right. split; [lia | ]. split; assumption.
Qed.

Lemma find_frame_search :
  exists st, find_frame bits = Ok st
             /\ search_inv bits (BLEN - SAMPLES_PER_SEC * 60) st.
Proof.
  unfold find_frame, for_range.
  change (u32 (BLEN - SAMPLES_PER_SEC * 60)) with 2400.
  change (BLEN - SAMPLES_PER_SEC * 60) with (0 + Z.of_nat (Z.to_nat (2400 - 0))).
  apply (for_loop_inv (search_inv bits)).
  - intros i t Hi Hinv. apply find_frame_body_inv; [ | exact Hinv].
    rewrite BLEN_val, SAMPLES_PER_SEC_val. lia.
  - unfold search_inv. split; [vm_compute; split; discriminate | ].
    split; [intros j Hj; lia | ].
    left. reflexivity.
Qed.

End FrameSync.

(** ** The field decoder *)

Lemma frame_codes_ok : forallb (fun f => code_ok (code f)) frame = true.
Proof. reflexivity. Qed.

Lemma code_sample_in_bounds (frame_idx : Z) (c : code_t) :
  0 <= frame_idx <= BLEN - SAMPLES_PER_SEC * 60 -> 0 <= bit c <= 59 ->
  0 <= code_sample frame_idx c <= BLEN - SAMPLES_PER_SEC.
Proof.
  rewrite BLEN_val, SAMPLES_PER_SEC_val. intros Hi Hc. unfold code_sample.
  rewrite SAMPLES_PER_SEC_val.
  rewrite (u32_small (bit c * 40)) by lia. rewrite u32_small by lia. lia.
Qed.

Lemma decode_field_loop_no_marker (bits : list Z) (frame_idx B : Z) :
  forall (code : list code_t) (rs : list (Z * Z)) (field_val lscore worst : Z),
    classified bits frame_idx code rs ->
    Forall (fun r => (fst r = 0 \/ fst r = 1) /\ 0 <= snd r <= B) rs ->
    Forall (fun c => 0 <= weight c) code ->
    0 <= field_val -> 0 <= lscore -> 0 <= worst ->
    field_val + Zsum (map weight code) < 2 ^ 32 ->
    lscore + Z.of_nat (length code) * B < 2 ^ 32 ->
    decode_field_loop bits frame_idx code field_val lscore worst
    = Ok (field_val + weighted_sum code rs,
          lscore + Zsum (map snd rs),
          Z.max worst (Zmax (map snd rs))).
Proof.
  intros code rs field_val lscore worst Hcl. revert field_val lscore worst.
  induction Hcl as [ | c [res res_score] code rs Hc Hcl IH];
    intros field_val lscore worst Hrs Hw Hfv Hls Hworst Hfvmax Hlsmax.
  - unfold weighted_sum.
    cbn [decode_field_loop combine map Zsum Zmax fold_right].
    f_equal. f_equal; [f_equal | ]; lia.
  - inversion Hrs as [ | r rs' [Hres Hscore] Hrs']; subst.
    inversion Hw as [ | c' code' Hwc Hw']; subst.
    simpl fst in *. simpl snd in *.
    cbn [map Zsum fold_right] in Hfvmax. fold (Zsum (map weight code)) in Hfvmax.
    change (length (c :: code)) with (S (length code)) in Hlsmax.
    assert (Hsum_nn : 0 <= Zsum (map weight code)).
    { clear - Hw'. induction Hw' as [ | c0 l0 H0 Hl0 IH0]; simpl; lia. }
    cbn [decode_field_loop]. rewrite Hc. cbn [bind].
    assert (Hne : (res =? 2) = false) by (apply Z.eqb_neq; lia).
    rewrite Hne.
    assert (Hprod : 0 <= weight c * res <= weight c)
      by (destruct Hres as [-> | ->]; lia).
    rewrite (u32_small (weight c * res)) by lia.
    rewrite (u32_small (field_val + weight c * res)) by lia.
    rewrite (u32_small (lscore + res_score)) by nia.
    assert (Hworst' : 0 <= (if res_score >? worst then res_score else worst))
      by (destruct (res_score >? worst); lia).
    rewrite IH; try assumption; try lia; try nia.
    unfold weighted_sum, Zsum, Zmax. cbn [combine map fold_right fst snd].
    f_equal. f_equal; [f_equal; lia | ].
    destruct (Z.gtb_spec res_score worst); lia.
Qed.

(** A mark after seconds that are none ends the loop, whatever its state and
    whatever follows. *)
Lemma decode_field_loop_marker (bits : list Z) (frame_idx : Z)
  (c : code_t) (post : list code_t) :
  is_marker bits frame_idx c ->
  forall (pre : list code_t) (field_val lscore worst : Z),
    Forall (not_marker bits frame_idx) pre ->
    decode_field_loop bits frame_idx (pre ++ c :: post) field_val lscore worst
    = Ok (0, DECODE_FAILURE, SAMPLES_PER_SEC).
Proof.
  intros [s Hs]. induction pre as [ | p pre IH];
    intros field_val lscore worst Hpre.
  - cbn [app decode_field_loop]. rewrite Hs. reflexivity.
  - inversion Hpre as [ | p' pre' (r & sc & Hp & Hr) Hpre']; subst.
    cbn [app decode_field_loop]. rewrite Hp. cbn [bind].
    assert (Hne : (r =? 2) = false) by (apply Z.eqb_neq; exact Hr).
    rewrite Hne. apply IH. exact Hpre'.
Qed.

(** The first mark of a code whose seconds all classify. *)
Lemma first_marker (bits : list Z) (frame_idx : Z) (code : list code_t) :
  Forall (fun c => exists r, decode_sec bits (code_sample frame_idx c) = Ok r)
    code ->
  Exists (is_marker bits frame_idx) code ->
  exists pre c post,
    code = pre ++ c :: post
    /\ Forall (not_marker bits frame_idx) pre
    /\ is_marker bits frame_idx c.
Proof.
  induction code as [ | c code IH]; intros Hall Hex.
  - inversion Hex.
  - inversion Hall as [ | c' code' [[r s] Hc] Hall']; subst.
    destruct (Z.eq_dec r 2) as [-> | Hne].
    + exists [], c, code. split; [reflexivity | ]. split; [constructor | ].
      exists s. exact Hc.
    + assert (Hex' : Exists (is_marker bits frame_idx) code).
      { inversion Hex as [c' code' [s' Hs'] | c' code' Hrest]; subst.
        - rewrite Hc in Hs'. congruence.
        - exact Hrest. }
      destruct (IH Hall' Hex') as (pre & c0 & post & Hcode & Hpre & Hc0).
      exists (c :: pre), c0, post. split; [rewrite Hcode; reflexivity | ].
      split; [ | exact Hc0]. constructor; [ | exact Hpre].
      exists r, s. split; assumption.
Qed.

Lemma frame_codes_in_frame : Forall (fun f => code_in_frame (code f)) frame.
Proof. unfold frame, code_in_frame. repeat constructor; simpl; lia. Qed.

Section FrameDecode.

Variable bits : list Z.
Variable m : Z.
Hypothesis Hm : 0 <= m <= 255.
Hypothesis Hlen : Z.of_nat (length bits) = BLEN.
Hypothesis Hlevels : Forall (level_ok m) bits.

Variable frame_idx : Z.
Hypothesis Hidx : 0 <= frame_idx <= BLEN - SAMPLES_PER_SEC * 60.

Lemma decode_field_loop_ok :
  forall (code : list code_t) (field_val lscore worst : Z),
    code_in_frame code ->
    exists r, decode_field_loop bits frame_idx code field_val lscore worst = Ok r.
Proof.
  intros code. induction code as [ | c code IH];
    intros field_val lscore worst Hcode.
  - eexists. reflexivity.
  - inversion Hcode as [ | c' code' Hc Hrest]; subst.
    destruct (decode_sec_ok bits m (code_sample frame_idx c) Hm Hlen Hlevels)
      as (r & s & Hd & _); [apply code_sample_in_bounds; assumption | ].
    cbn [decode_field_loop]. rewrite Hd. cbn [bind].
    destruct (r =? 2); [eexists; reflexivity | ]. apply IH. exact Hrest.
Qed.

Lemma decode_frame_loop_ok :
  forall (fields : list field_t) (total : Z),
    Forall (fun f => code_in_frame (code f)) fields ->
    exists r, decode_frame_loop bits frame_idx fields total = Ok r.
Proof.
  intros fields. induction fields as [ | f fields IH]; intros total Hall.
  - eexists. reflexivity.
  - inversion Hall as [ | f' fields' Hf Hrest]; subst.
    destruct (decode_field_loop_ok (code f) 0 0 0 Hf) as ([[v s] w] & Hd).
    cbn [decode_frame_loop]. unfold decode_field. rewrite Hd. cbn [bind].
    destruct (IH (u32 (total + s)) Hrest) as ([t rest'] & Ht).
    rewrite Ht. cbn [bind]. eexists. reflexivity.
Qed.

(** What [decode_sec] returned at the positions of a code in the frame. *)
Lemma classified_range (code : list code_t) (rs : list (Z * Z)) :
  code_in_frame code ->
  classified bits frame_idx code rs ->
  Forall (fun r => (fst r = 0 \/ fst r = 1 \/ fst r = 2)
                   /\ 0 <= snd r <= SAMPLES_PER_SEC * m) rs.
Proof.
  intros Hcode Hcl. induction Hcl as [ | c r code rs Hc Hcl IH].
  - constructor.
  - inversion Hcode as [ | c' code' Hbit Hrest]; subst.
    constructor; [ | apply IH; exact Hrest].
    destruct (decode_sec_ok bits m (code_sample frame_idx c) Hm Hlen Hlevels)
      as (r0 & s0 & Hd & Hr0 & Hs0); [apply code_sample_in_bounds; assumption | ].
    rewrite Hd in Hc. injection Hc as <-. simpl. split; assumption.
Qed.

End FrameDecode.

(** ** The calendar converter *)

Lemma month_search_fuel (daysums : list Z) (daynum : Z) :
  forall (fuel : nat) (month : Z),
    0 <= month <= Z.of_nat (length daysums) ->
    Z.of_nat (length daysums) < month + Z.of_nat fuel < 2 ^ 32 ->
    month_search fuel daysums daynum month <> OutOfFuel.
Proof.
  induction fuel as [ | fuel IH]; intros month Hm Hfuel.
  - lia.
  - cbn [month_search].
    destruct (load daysums month) as [d | i | ] eqn:Hload; cbn [bind].
    + apply load_Ok_bounds in Hload.
      destruct (d <? daynum); [ | discriminate].
      rewrite u32_small by lia. apply IH; lia.
    + discriminate.
    + unfold load in Hload. destruct (month <? 0); [discriminate | ].
      destruct (nth_error daysums (Z.to_nat month)); discriminate.
Qed.

Lemma month_search_more_fuel (daysums : list Z) (daynum : Z) :
  forall (fuel extra : nat) (month : Z),
    month_search fuel daysums daynum month <> OutOfFuel ->
    month_search (fuel + extra) daysums daynum month
    = month_search fuel daysums daynum month.
Proof.
  induction fuel as [ | fuel IH]; intros extra month Hne.
  - exfalso. apply Hne. reflexivity.
  - cbn [Nat.add month_search] in *.
    destruct (load daysums month) as [d | i | ]; cbn [bind] in *;
      try reflexivity.
    destruct (d <? daynum); [ | reflexivity]. apply IH. exact Hne.
Qed.

(** Thirteen turns are enough: more fuel changes nothing and the search
    never runs out of it. *)
Lemma daynum_to_month_day_total (fuel : nat) (daynum is_leap_year : Z) :
  (13 <= fuel)%nat ->
  daynum_to_month_day_fuel fuel daynum is_leap_year
  = daynum_to_month_day daynum is_leap_year
  /\ daynum_to_month_day daynum is_leap_year <> OutOfFuel.
Proof.
  intros Hfuel. unfold daynum_to_month_day, daynum_to_month_day_fuel.
  destruct (is_leap_year =? 0).
  - cbn [bind].
    set (daysums := [31; 59; 90; 120; 151; 181; 212; 243; 273; 304; 334; 365]).
    assert (Hne : month_search 13 daysums daynum 0 <> OutOfFuel).
    { apply month_search_fuel; subst daysums; simpl; lia. }
    replace fuel with (13 + (fuel - 13))%nat by lia.
    rewrite month_search_more_fuel by exact Hne. split; [reflexivity | ].
    destruct (month_search 13 daysums daynum 0) as [month | i | ];
      cbn [bind]; [ | discriminate | congruence].
    destruct (month >? 0); cbn [bind]; [ | discriminate].
    destruct (load daysums (u32 (month - 1))) as [d | i | ] eqn:Hload;
      cbn [bind]; try discriminate.
    unfold load in Hload. destruct (u32 (month - 1) <? 0); [discriminate | ].
    destruct (nth_error daysums (Z.to_nat (u32 (month - 1)))); discriminate.
  - split; [reflexivity | discriminate].
Qed.

(** In a leap year the adjustment loop faults before the search starts. *)
Lemma leap_year_adjustment_out_of_bounds (daynum is_leap_year : Z) :
  is_leap_year <> 0 ->
  daynum_to_month_day daynum is_leap_year = OutOfBounds 12.
Proof.
  intros Hleap. unfold daynum_to_month_day, daynum_to_month_day_fuel.
  apply Z.eqb_neq in Hleap. rewrite Hleap. reflexivity.
Qed.

(** The turns of the adjustment loop that stay in the table leave the
    cumulative counts of a leap year, in which day 60 is found in the second
    entry; the thirteenth index is the one that leaves the table. *)
Example leap_year_adjustment_turns :
  for_range 1 12 daysums_increment
    [31; 59; 90; 120; 151; 181; 212; 243; 273; 304; 334; 365]
  = Ok [31; 60; 91; 121; 152; 182; 213; 244; 274; 305; 335; 366]
  /\ daysums_increment 12
       [31; 60; 91; 121; 152; 182; 213; 244; 274; 305; 335; 366]
     = OutOfBounds 12
  /\ month_search 13
       [31; 60; 91; 121; 152; 182; 213; 244; 274; 305; 335; 366] 60 0
     = Ok 1.
Proof. repeat split; reflexivity. Qed.

(** In a common year every day from 1 to 365 has its month and day, and no
    access leaves the table. *)
Lemma daynum_to_month_day_common_year (daynum : Z) :
  1 <= daynum <= 365 ->
  exists month day,
    daynum_to_month_day daynum 0 = Ok (month, day)
    /\ 1 <= month <= 12 /\ 1 <= day <= 31.
Proof.
  intros Hd.
  assert (Hall : forallb common_year_date (map Z.of_nat (seq 1 365)) = true)
    by (vm_compute; reflexivity).
  rewrite forallb_forall in Hall.
  assert (Hin : In daynum (map Z.of_nat (seq 1 365))).
  { apply in_map_iff. exists (Z.to_nat daynum). split; [lia | ].
    apply in_seq. lia. }
  specialize (Hall daynum Hin). unfold common_year_date in Hall.
  destruct (daynum_to_month_day daynum 0) as [[month day] | i | ];
    try discriminate.
  exists month, day. split; [reflexivity | lia].
Qed.

(** ** The decoder on an ideal frame *)

(** The frame of [ideal_buffer] matches the fixed positions at offset 0
    without an error and decodes to 17:42. *)
Example decode_ideal_frame :
  sample_buffer ideal_buffer = true
  /\ xor_frame ideal_buffer 0 (snd find_frame_init) = Ok 0
  /\ decode_field ideal_buffer 0 hours_code = Ok (17, 0, 0)
  /\ decode_field ideal_buffer 0 minutes_code = Ok (42, 0, 0).
Proof. repeat split; vm_compute; reflexivity. Qed.

(** ** The cumulative error of a candidate *)

Lemma frame_const_fields_types :
  Forall (fun f => type f = 0 \/ type f = 2) frame_const_fields.
Proof.
  apply Forall_forall. intros f Hf. unfold frame_const_fields in Hf.
  simpl in Hf. repeat (destruct Hf as [<- | Hf]; [simpl; auto | ]).
  contradiction.
Qed.

Section Cumulative.

Variable bits : list Z.
Variable m : Z.
Hypothesis Hm : 0 <= m <= 255.
Hypothesis Hlen : Z.of_nat (length bits) = BLEN.
Hypothesis Hlevels : Forall (level_ok m) bits.

Variable samp_idx : Z.
Hypothesis Hidx : 0 <= samp_idx <= BLEN - SAMPLES_PER_SEC * 60.

(** The loop of the exhaustive [xor_frame] adds up what the symbol matcher
    says of the fixed seconds, one by one. *)
Lemma exhaustive_loop_cumulative :
  forall (fields : list const_field) (sum : Z),
    Forall second_in_frame fields ->
    Forall (fun f => type f = 0 \/ type f = 2) fields ->
    0 <= sum ->
    sum + Z.of_nat (length fields) * (40 * m) < 2 ^ 32 ->
    exists t,
      sum_scores
        (map (fun f => symbol_score bits (samp_idx + sec f * SAMPLES_PER_SEC)
                         (type f)) fields) = Ok t
      /\ 0 <= t <= Z.of_nat (length fields) * (40 * m)
      /\ xor_frame_exhaustive_loop bits samp_idx fields sum = Ok (sum + t).
Proof.
  pose proof SAMPLES_PER_SEC_val as HS. pose proof BLEN_val as HB.
  intros fields. induction fields as [ | f rest IH];
    intros sum Hsec Htype Hsum Hmax.
  - exists 0. simpl. split; [reflexivity | ]. split; [lia | ].
    f_equal. lia.
  - inversion Hsec as [ | f' rest' Hf Hrest]; subst.
    inversion Htype as [ | f' rest' Hty Htypes]; subst.
    change (length (f :: rest)) with (S (length rest)) in *.
    unfold second_in_frame in Hf.
    assert (Hscore : exists s,
               symbol_score bits (samp_idx + sec f * SAMPLES_PER_SEC) (type f)
               = Ok s
               /\ 0 <= s <= 40 * m
               /\ xor_frame_case bits samp_idx f sum = Ok (sum + s)).
    { unfold symbol_score, xor_frame_case.
      rewrite (u32_small (samp_idx + sec f * SAMPLES_PER_SEC)) by lia.
      destruct Hty as [Hty | Hty]; rewrite Hty.
      - change (0 =? 0) with true. cbv iota.
        destruct (xor_zero_ok bits m Hm Hlen Hlevels
                    (samp_idx + sec f * SAMPLES_PER_SEC)) as (s & Hs & Hb);
          [lia | ].
        exists s. rewrite Hs. cbn [bind]. rewrite u32_small by lia.
        split; [reflexivity | ]. split; [lia | reflexivity].
      - change (2 =? 0) with false. change (2 =? 1) with false.
        change (2 =? 2) with true. cbv iota.
        destruct (xor_mark_ok bits m Hm Hlen Hlevels
                    (samp_idx + sec f * SAMPLES_PER_SEC)) as (s & Hs & Hb);
          [lia | ].
        exists s. rewrite Hs. cbn [bind]. rewrite u32_small by lia.
        split; [reflexivity | ]. split; [lia | reflexivity]. }
    destruct Hscore as (s & Hs & Hsb & Hcase).
    destruct (IH (sum + s) Hrest Htypes) as (t & Ht & Htb & Hloop); [lia | lia | ].
    exists (s + t). cbn [map sum_scores xor_frame_exhaustive_loop].
    rewrite Hs, Ht, Hcase. cbn [bind]. rewrite Hloop.
    split; [reflexivity | ]. split; [lia | ]. f_equal. lia.
Qed.

Lemma xor_frame_exhaustive_cumulative :
  xor_frame_exhaustive bits samp_idx = cumulative_error bits samp_idx.
Proof.
  destruct (exhaustive_loop_cumulative frame_const_fields 0
              frame_const_fields_in_frame frame_const_fields_types)
    as (t & Ht & _ & Hloop).
  - lia.
  - change (Z.of_nat (length frame_const_fields)) with 18. lia.
  - unfold xor_frame_exhaustive, cumulative_error. rewrite Hloop, Ht.
    reflexivity.
Qed.

End Cumulative.

(** * The claims *)

(** ** Symbol matcher *)

(** C1, as stated, fails: on the second of [tie_buffer] the ideal zero and
    the ideal one both score 6 and the mark scores 18, and [decode_sec]
    answers zero, not one. *)
Lemma decode_sec_tie_is_zero :
  sample_buffer tie_buffer = true
  /\ xor_zero tie_buffer 0 = Ok 6
  /\ xor_one tie_buffer 0 = Ok 6
  /\ xor_mark tie_buffer 0 = Ok 18
  /\ decode_sec tie_buffer 0 = Ok (0, 6).
Proof. repeat split; vm_compute; reflexivity. Qed.

(** C1, amended.  For every buffer and every in-bounds start sample,
    [decode_sec] evaluates the three template scores and returns a symbol of
    minimum score with that score; a zero wins over an equal one, and a zero
    or a one wins over an equal mark. *)
Theorem decode_sec_minimum (bits : list Z) (samp_idx : Z) :
  byte_buffer bits = true ->
  0 <= samp_idx <= BLEN - SAMPLES_PER_SEC ->
  exists z o k r s,
    xor_zero bits samp_idx = Ok z
    /\ xor_one bits samp_idx = Ok o
    /\ xor_mark bits samp_idx = Ok k
    /\ decode_sec bits samp_idx = Ok (r, s)
    /\ s = Z.min (Z.min z o) k
    /\ ((r = 0 /\ s = z /\ z <= o /\ z <= k)
        \/ (r = 1 /\ s = o /\ o < z /\ o <= k)
        \/ (r = 2 /\ s = k /\ k < z /\ k < o)).
Proof.
  intros Hbuf Hi. apply byte_buffer_spec in Hbuf as [Hlen Hlev].
  assert (Hm : 0 <= 255 <= 255) by lia.
  destruct (xor_zero_ok bits 255 Hm Hlen Hlev samp_idx Hi) as (z & Hz & _).
  destruct (xor_one_ok bits 255 Hm Hlen Hlev samp_idx Hi) as (o & Ho & _).
  destruct (xor_mark_ok bits 255 Hm Hlen Hlev samp_idx Hi) as (k & Hk & _).
  destruct (decode_sec_cases bits samp_idx z o k Hz Ho Hk)
    as (r & s & Hd & Hs & Hr).
  exists z, o, k, r, s. repeat (split; [assumption | ]). exact Hr.
Qed.

Lemma decode_sec_minimum_witness :
  exists z o k r s,
    xor_zero tie_buffer 0 = Ok z
    /\ xor_one tie_buffer 0 = Ok o
    /\ xor_mark tie_buffer 0 = Ok k
    /\ decode_sec tie_buffer 0 = Ok (r, s)
    /\ s = Z.min (Z.min z o) k
    /\ ((r = 0 /\ s = z /\ z <= o /\ z <= k)
        \/ (r = 1 /\ s = o /\ o < z /\ o <= k)
        \/ (r = 2 /\ s = k /\ k < z /\ k < o)).
Proof.
  apply (decode_sec_minimum tie_buffer 0).
  - vm_compute. reflexivity.
  - vm_compute. split; discriminate.
Defined.

(** C2, as stated, fails: on a second of zeros the ideal zero scores 32, but
    [decode_sec] answers mark with score 8. *)
Lemma decode_sec_zero_buffer_is_marker :
  sample_buffer zero_buffer = true
  /\ second zero_buffer 0 = repeat 0 (Z.to_nat SAMPLES_PER_SEC)
  /\ xor_zero zero_buffer 0 = Ok 32
  /\ decode_sec zero_buffer 0 = Ok (2, 8).
Proof. repeat split; vm_compute; reflexivity. Qed.

(** C2, amended.  For a one-second span whose samples are all 0, the ideal
    zero scores the length of its high sub-span (32 samples, 80% of the
    second), and [decode_sec] returns the symbol mark, with score the length
    of the mark's high sub-span (8 samples, 20% of the second). *)
Theorem decode_sec_all_zero (bits : list Z) (samp_idx : Z) :
  0 <= samp_idx <= BLEN - SAMPLES_PER_SEC ->
  second bits samp_idx = repeat 0 (Z.to_nat SAMPLES_PER_SEC) ->
  xor_zero bits samp_idx = Ok (800 / SAMP_PERIOD)
  /\ 800 / SAMP_PERIOD = 32
  /\ decode_sec bits samp_idx = Ok (2, 200 / SAMP_PERIOD)
  /\ 200 / SAMP_PERIOD = 8.
Proof.
  rewrite BLEN_val. intros Hi Hsec.
  assert (Hload : forall zl ol, zl + ol = SAMPLES_PER_SEC -> 0 <= zl -> 0 <= ol ->
                    xor_sec bits samp_idx zl ol = Ok ol).
  { intros zl ol Hsum Hzl Hol.
    rewrite (xor_sec_const bits samp_idx zl ol 0);
      change (Z.lxor 0 0) with 0; change (Z.lxor 1 0) with 1; try lia.
    - f_equal. lia.
    - intros k Hk. apply (load_second_const bits samp_idx 0 k); [lia | exact Hsec | lia]. }
  assert (Hz : xor_zero bits samp_idx = Ok 32) by (apply Hload; easy).
  assert (Ho : xor_one bits samp_idx = Ok 20) by (apply Hload; easy).
  assert (Hk : xor_mark bits samp_idx = Ok 8) by (apply Hload; easy).
  split; [exact Hz | ]. split; [reflexivity | ]. split; [ | reflexivity].
  unfold decode_sec. rewrite Hz, Ho, Hk. reflexivity.
Qed.

Lemma decode_sec_all_zero_witness :
  xor_zero zero_buffer 100 = Ok (800 / SAMP_PERIOD)
  /\ 800 / SAMP_PERIOD = 32
  /\ decode_sec zero_buffer 100 = Ok (2, 200 / SAMP_PERIOD)
  /\ 200 / SAMP_PERIOD = 8.
Proof.
  apply (decode_sec_all_zero zero_buffer 100).
  - vm_compute. split; discriminate.
  - vm_compute. reflexivity.
Defined.

(** ** Frame synchroniser *)

(** On a buffer of carrier levels the search ends on the first candidate of
    least full error, and no full error exceeds 18 seconds of samples. *)
Lemma find_frame_selects (bits : list Z) :
  sample_buffer bits = true ->
  exists idx err,
    find_frame bits = Ok (idx, err)
    /\ 0 <= idx < BLEN - SAMPLES_PER_SEC * 60
    /\ xor_frame_exhaustive bits idx = Ok err
    /\ (forall j, 0 <= j < BLEN - SAMPLES_PER_SEC * 60 ->
                  exists e, xor_frame_exhaustive bits j = Ok e
                            /\ 0 <= e <= 18 * SAMPLES_PER_SEC
                            /\ err <= e /\ (j < idx -> err < e)).
Proof.
  intros Hbuf. apply sample_buffer_spec in Hbuf as [Hlen Hlev].
  assert (Hm : 0 <= 1 <= 255) by lia.
  destruct (find_frame_search bits 1 Hm Hlen Hlev)
    as ([idx err] & Hfind & Hrange & Hlow & Hsel).
  simpl fst in *. simpl snd in *.
  assert (Hbound : forall j e, 0 <= j < BLEN - SAMPLES_PER_SEC * 60 ->
                     xor_frame_exhaustive bits j = Ok e ->
                     0 <= e <= 18 * SAMPLES_PER_SEC).
  { intros j e Hj He.
    destruct (xor_frame_spec bits 1 Hm Hlen Hlev j 0) as (full & _ & Hfull & _ & Hb & _);
      [lia | ].
    rewrite Hfull in He. injection He as <-. lia. }
  destruct Hsel as [Hinit | (Hidx & Herr & Hfirst)].
  - exfalso.
    assert (Herr : err = 4800) by (change err with (snd (idx, err)); now rewrite Hinit).
    rewrite BLEN_val, SAMPLES_PER_SEC_val in *.
    destruct (Hlow 0) as (e & He & Hle); [lia | ].
    specialize (Hbound 0 e ltac:(lia) He). lia.
  - rewrite BLEN_val, SAMPLES_PER_SEC_val in *. exists idx, err.
    split; [exact Hfind | ]. split; [lia | ].
    split; [exact Herr | ]. intros j Hj.
    destruct (Hlow j Hj) as (e & He & Hle). exists e.
    split; [exact He | ]. split; [apply (Hbound j e); [lia | exact He] | ].
    split; [exact Hle | ]. intros Hlt.
    destruct (Hfirst j) as (e' & He' & Hlt'); [lia | ].
    rewrite He in He'. injection He' as <-. exact Hlt'.
Qed.

(** C3, amended.  On every buffer of carrier levels [find_frame] returns a
    candidate offset from 0 up to, and not including, [BLEN] minus one
    frame, together with the cumulative error of that candidate: the sum of
    the symbol matcher's scores over the 18 fixed positions.  That error is
    the least among the candidates of that range, and every candidate before
    the returned one has a strictly larger error. *)
Theorem find_frame_global_minimum (bits : list Z) :
  sample_buffer bits = true ->
  exists idx err,
    find_frame bits = Ok (idx, err)
    /\ 0 <= idx < BLEN - SAMPLES_PER_SEC * 60
    /\ cumulative_error bits idx = Ok err
    /\ (forall j, 0 <= j < BLEN - SAMPLES_PER_SEC * 60 ->
                  exists e, cumulative_error bits j = Ok e
                            /\ err <= e /\ (j < idx -> err < e)).
Proof.
  intros Hbuf.
  destruct (find_frame_selects bits Hbuf) as (idx & err & Hfind & Hidx & Herr & Hmin).
  apply sample_buffer_spec in Hbuf as [Hlen Hlev].
  assert (Hm : 0 <= 1 <= 255) by lia.
  assert (Hlink : forall j, 0 <= j < BLEN - SAMPLES_PER_SEC * 60 ->
                    xor_frame_exhaustive bits j = cumulative_error bits j).
  { intros j Hj. apply (xor_frame_exhaustive_cumulative bits 1 Hm Hlen Hlev). lia. }
  exists idx, err. split; [exact Hfind | ]. split; [exact Hidx | ].
  split; [rewrite <- Hlink by exact Hidx; exact Herr | ].
  intros j Hj. destruct (Hmin j Hj) as (e & He & _ & Hle & Hlt).
  exists e. rewrite <- Hlink by exact Hj. repeat split; assumption.
Qed.

Lemma find_frame_global_minimum_witness :
  exists idx err,
    find_frame ideal_buffer = Ok (idx, err)
    /\ 0 <= idx < BLEN - SAMPLES_PER_SEC * 60
    /\ cumulative_error ideal_buffer idx = Ok err
    /\ (forall j, 0 <= j < BLEN - SAMPLES_PER_SEC * 60 ->
                  exists e, cumulative_error ideal_buffer j = Ok e
                            /\ err <= e /\ (j < idx -> err < e)).
Proof.
  apply (find_frame_global_minimum ideal_buffer). vm_compute. reflexivity.
Defined.

(** C4.  Abandoning a candidate once its partial sum exceeds the running
    minimum changes nothing: on every buffer the array can hold,
    [find_frame] returns an offset and an error, and they are the ones the
    exhaustive search returns. *)
Theorem find_frame_pruning_sound (bits : list Z) :
  byte_buffer bits = true ->
  exists idx err,
    find_frame bits = Ok (idx, err)
    /\ find_frame_exhaustive bits = Ok (idx, err).
Proof.
  intros Hbuf. apply byte_buffer_spec in Hbuf as [Hlen Hlev].
  assert (Hm : 0 <= 255 <= 255) by lia.
  destruct (find_frame_search bits 255 Hm Hlen Hlev) as ([idx err] & Hfind & _).
  exists idx, err. split; [exact Hfind | ].
  rewrite <- (find_frame_eq_exhaustive bits 255 Hm Hlen Hlev). exact Hfind.
Qed.

Lemma find_frame_pruning_sound_witness :
  exists idx err,
    find_frame ideal_buffer = Ok (idx, err)
    /\ find_frame_exhaustive ideal_buffer = Ok (idx, err).
Proof.
  apply (find_frame_pruning_sound ideal_buffer). vm_compute. reflexivity.
Defined.

(** The pruning is real: against a running minimum of 100 the first
    candidate of [zero_buffer] is abandoned at 112, short of its full
    error 408. *)
Example xor_frame_prunes :
  xor_frame zero_buffer 0 100 = Ok 112
  /\ xor_frame_exhaustive zero_buffer 0 = Ok 408.
Proof. split; vm_compute; reflexivity. Qed.

(** C10.  On every buffer of carrier levels no candidate's cumulative error
    exceeds 18 seconds of samples (720), which is below the initial minimum
    (4800); the first candidate therefore replaces the initial state, and
    [find_frame] returns an offset below [BLEN] minus 60 seconds, never its
    initial index [2 * BLEN]; at the returned offset [decode_frame] reads
    no sample outside the buffer. *)
Theorem find_frame_in_bounds (bits : list Z) :
  sample_buffer bits = true ->
  (forall j, 0 <= j < BLEN - SAMPLES_PER_SEC * 60 ->
             exists e, xor_frame_exhaustive bits j = Ok e
                       /\ 0 <= e <= 18 * SAMPLES_PER_SEC)
  /\ 18 * SAMPLES_PER_SEC = 720
  /\ find_frame_init = (2 * BLEN, 4800)
  /\ (exists e, find_frame_body bits 0 find_frame_init = Ok (0, e))
  /\ exists idx err,
       find_frame bits = Ok (idx, err)
       /\ 0 <= idx < BLEN - SAMPLES_PER_SEC * 60
       /\ idx <> 2 * BLEN
       /\ 0 <= err <= 720
       /\ exists r, decode_frame bits idx frame = Ok r.
Proof.
  intros Hbuf.
  destruct (find_frame_selects bits Hbuf) as (idx & err & Hfind & Hidx & Herr & Hmin).
  apply sample_buffer_spec in Hbuf as [Hlen Hlev].
  assert (Hm : 0 <= 1 <= 255) by lia.
  split.
  { intros j Hj. destruct (Hmin j Hj) as (e & He & Hb & _).
    exists e. split; assumption. }
  split; [reflexivity | ]. split; [reflexivity | ]. split.
  { destruct (xor_frame_spec bits 1 Hm Hlen Hlev 0 (snd find_frame_init))
      as (full & r & Hfull & Hr & Hb & Hle & _);
      [rewrite BLEN_val, SAMPLES_PER_SEC_val; lia | ].
    exists full. unfold find_frame_body.
    change find_frame_init with (fst find_frame_init, snd find_frame_init).
    cbv iota beta. rewrite Hr. cbn [bind].
    change (snd find_frame_init) with 4800 in *.
    rewrite SAMPLES_PER_SEC_val in Hb.
    rewrite Hle by lia.
    destruct (Z.ltb_spec full 4800) as [_ | Hge]; [reflexivity | lia]. }
  exists idx, err. split; [exact Hfind | ]. split; [exact Hidx | ].
  rewrite BLEN_val, SAMPLES_PER_SEC_val in *.
  split; [lia | ]. split.
  { destruct (Hmin idx Hidx) as (e & He & Hb & _).
    rewrite Herr in He. injection He as <-. lia. }
  apply (decode_frame_loop_ok bits 1 Hm Hlen Hlev idx).
  - rewrite BLEN_val, SAMPLES_PER_SEC_val. lia.
  - exact frame_codes_in_frame.
Qed.

Lemma find_frame_in_bounds_witness :
  (forall j, 0 <= j < BLEN - SAMPLES_PER_SEC * 60 ->
             exists e, xor_frame_exhaustive ideal_buffer j = Ok e
                       /\ 0 <= e <= 18 * SAMPLES_PER_SEC)
  /\ 18 * SAMPLES_PER_SEC = 720
  /\ find_frame_init = (2 * BLEN, 4800)
  /\ (exists e, find_frame_body ideal_buffer 0 find_frame_init = Ok (0, e))
  /\ exists idx err,
       find_frame ideal_buffer = Ok (idx, err)
       /\ 0 <= idx < BLEN - SAMPLES_PER_SEC * 60
       /\ idx <> 2 * BLEN
       /\ 0 <= err <= 720
       /\ exists r, decode_frame ideal_buffer idx frame = Ok r.
Proof.
  apply (find_frame_in_bounds ideal_buffer). vm_compute. reflexivity.
Defined.

(** ** Field decoder *)

(** C5.  When every position of a code classifies and some position
    classifies as a mark, [decode_field] returns value 0, score
    [DECODE_FAILURE] (9999) and worst score [SAMPLES_PER_SEC] (40); the
    positions after the first mark are not evaluated: whatever follows it,
    in the buffer or not, the result is the same. *)
Theorem decode_field_marker_fails (bits : list Z) (frame_idx : Z)
  (code : list code_t) :
  Forall (fun c => exists r, decode_sec bits (code_sample frame_idx c) = Ok r)
    code ->
  Exists (is_marker bits frame_idx) code ->
  decode_field bits frame_idx code = Ok (0, DECODE_FAILURE, SAMPLES_PER_SEC)
  /\ DECODE_FAILURE = 9999
  /\ SAMPLES_PER_SEC = 40
  /\ exists pre c post,
       code = pre ++ c :: post
       /\ Forall (not_marker bits frame_idx) pre
       /\ is_marker bits frame_idx c
       /\ forall post',
            decode_field bits frame_idx (pre ++ c :: post')
            = Ok (0, DECODE_FAILURE, SAMPLES_PER_SEC).
Proof.
  intros Hall Hex.
  destruct (first_marker bits frame_idx code Hall Hex)
    as (pre & c & post & Hcode & Hpre & Hc).
  split.
  { rewrite Hcode. unfold decode_field.
    apply decode_field_loop_marker; assumption. }
  split; [reflexivity | ]. split; [reflexivity | ].
  exists pre, c, post. repeat (split; [assumption | ]).
  intros post'. unfold decode_field.
  apply decode_field_loop_marker; assumption.
Qed.

Lemma decode_field_marker_fails_witness :
  decode_field ideal_buffer 40 minutes_code
  = Ok (0, DECODE_FAILURE, SAMPLES_PER_SEC)
  /\ DECODE_FAILURE = 9999
  /\ SAMPLES_PER_SEC = 40
  /\ exists pre c post,
       minutes_code = pre ++ c :: post
       /\ Forall (not_marker ideal_buffer 40) pre
       /\ is_marker ideal_buffer 40 c
       /\ forall post',
            decode_field ideal_buffer 40 (pre ++ c :: post')
            = Ok (0, DECODE_FAILURE, SAMPLES_PER_SEC).
Proof.
  apply (decode_field_marker_fails ideal_buffer 40 minutes_code).
  - unfold minutes_code.
    repeat (constructor; [eexists; vm_compute; reflexivity | ]). constructor.
  - unfold minutes_code. do 6 apply Exists_cons_tl. apply Exists_cons_hd.
    exists 0. vm_compute. reflexivity.
Defined.

Lemma Zsum_zero (l : list Z) : Forall (fun s => s = 0) l -> Zsum l = 0.
Proof. induction 1 as [ | s l Hs Hl IH]; simpl; lia. Qed.

Lemma Zmax_zero (l : list Z) : Forall (fun s => s = 0) l -> Zmax l = 0.
Proof.
  induction 1 as [ | s l Hs Hl IH]; simpl; [reflexivity | ].
  subst. rewrite IH. reflexivity.
Qed.

(** C6.  For every code table of the decoder and every frame start in the
    buffer, when no position classifies as a mark [decode_field] returns the
    sum of weight times classified bit (0 or 1), the sum of the position
    scores and the largest position score; when every position is a perfect
    match the score is 0 and the value is the exact weighted sum. *)
Theorem decode_field_weighted_sum (bits : list Z) (frame_idx : Z)
  (code : list code_t) (rs : list (Z * Z)) :
  byte_buffer bits = true ->
  code_ok code = true ->
  0 <= frame_idx <= BLEN - SAMPLES_PER_SEC * 60 ->
  classified bits frame_idx code rs ->
  Forall (fun r => fst r <> 2) rs ->
  decode_field bits frame_idx code
  = Ok (weighted_sum code rs, Zsum (map snd rs), Zmax (map snd rs))
  /\ Forall (fun r => fst r = 0 \/ fst r = 1) rs
  /\ (Forall (fun r => snd r = 0) rs ->
      decode_field bits frame_idx code = Ok (weighted_sum code rs, 0, 0)).
Proof.
  intros Hbuf Hcode Hidx Hcl Hno.
  apply byte_buffer_spec in Hbuf as [Hlen Hlev].
  assert (Hm : 0 <= 255 <= 255) by lia.
  unfold code_ok in Hcode.
  apply andb_true_iff in Hcode as [Hcode Hcount].
  apply andb_true_iff in Hcode as [Hentries Hweights].
  apply Z.ltb_lt in Hcount, Hweights.
  rewrite forallb_forall in Hentries.
  assert (Hin : code_in_frame code).
  { apply Forall_forall. intros c Hc. specialize (Hentries c Hc). lia. }
  assert (Hw : Forall (fun c => 0 <= weight c) code).
  { apply Forall_forall. intros c Hc. specialize (Hentries c Hc). lia. }
  pose proof (classified_range bits 255 Hm Hlen Hlev frame_idx Hidx code rs Hin Hcl)
    as Hrange.
  rewrite SAMPLES_PER_SEC_val in Hrange.
  assert (Hrs : Forall (fun r => (fst r = 0 \/ fst r = 1) /\ 0 <= snd r <= 40 * 255) rs).
  { rewrite Forall_forall in *. intros r Hr.
    specialize (Hrange r Hr). specialize (Hno r Hr). lia. }
  assert (Hfield : decode_field bits frame_idx code
                   = Ok (weighted_sum code rs, Zsum (map snd rs), Zmax (map snd rs))).
  { unfold decode_field.
    rewrite (decode_field_loop_no_marker bits frame_idx (40 * 255) code rs);
      try assumption; try lia.
    rewrite !Z.add_0_l, Z.max_r; [reflexivity | ].
    clear. induction (map snd rs) as [ | s l IH]; simpl; lia. }
  split; [exact Hfield | ]. split.
  { rewrite Forall_forall in *. intros r Hr. apply (Hrs r Hr). }
  intros Hperfect. rewrite Hfield.
  assert (Hzero : Forall (fun s => s = 0) (map snd rs)).
  { apply Forall_forall. intros s Hs. apply in_map_iff in Hs as (r & <- & Hr).
    rewrite Forall_forall in Hperfect. apply Hperfect. exact Hr. }
  rewrite (Zsum_zero _ Hzero), (Zmax_zero _ Hzero). reflexivity.
Qed.

Lemma decode_field_weighted_sum_witness :
  decode_field ideal_buffer 0 minutes_code = Ok (42, 0, 0).
Proof.
  apply (decode_field_weighted_sum ideal_buffer 0 minutes_code
           [(1, 0); (0, 0); (0, 0); (0, 0); (0, 0); (1, 0); (0, 0)]).
  - vm_compute. reflexivity.
  - vm_compute. reflexivity.
  - vm_compute. split; discriminate.
  - unfold classified, minutes_code.
    repeat (constructor; [vm_compute; reflexivity | ]). constructor.
  - repeat (constructor; [simpl; discriminate | ]). constructor.
  - repeat (constructor; [reflexivity | ]). constructor.
Defined.

(** ** Calendar converter *)

(** C7.  The leap-year adjustment runs its index up to 12 and so reads and
    writes [daysums[12]], one past the twelve entries; day 366 of a year
    that is no leap year sends the search to the same index. *)
Theorem daynum_to_month_day_index_12 :
  daynum_to_month_day 60 1 = OutOfBounds 12
  /\ daynum_to_month_day 366 0 = OutOfBounds 12.
Proof. split; reflexivity. Qed.

Lemma table_search_in_table (fuel : nat) (daysums : list Z) (mem : Z -> Z)
  (accesses : list Z) (daynum : Z) :
  forall (n : nat) (month k : Z),
    (n <= fuel)%nat ->
    month_search n daysums daynum month = Ok k ->
    table_search n {| cells := daysums; around := mem; stray := accesses |}
      daynum month
    = Ok (k, {| cells := daysums; around := mem; stray := accesses |}).
Proof.
  induction n as [ | n IH]; intros month k Hn Hrun; [discriminate | ].
  cbn [month_search] in Hrun. cbn [table_search].
  destruct (load daysums month) as [d | i | ] eqn:Hload; cbn [bind] in Hrun;
    try discriminate.
  pose proof (load_Ok_bounds daysums month d Hload) as Hb.
  unfold table_load, in_table. cbn [cells].
  destruct (Z.leb_spec 0 month); [ | lia].
  destruct (Z.ltb_spec month (Z.of_nat (length daysums))); [ | lia].
  cbn [andb].
  assert (Hnth : nth (Z.to_nat month) daysums 0 = d).
  { unfold load in Hload. destruct (month <? 0); [discriminate | ].
    destruct (nth_error daysums (Z.to_nat month)) as [v | ] eqn:Hv;
      [ | discriminate].
    injection Hload as <-. apply nth_error_nth. exact Hv. }
  rewrite Hnth. destruct (d <? daynum).
  - apply IH; [lia | exact Hrun].
  - injection Hrun as <-. reflexivity.
Qed.

(** Where the converter returns a date without leaving its table, it returns
    the same date in any memory, with no access outside the table. *)
Lemma daynum_to_month_day_around_agrees (mem : Z -> Z)
  (daynum is_leap_year month day : Z) :
  daynum_to_month_day daynum is_leap_year = Ok (month, day) ->
  daynum_to_month_day_around mem daynum is_leap_year = Ok (month, day, []).
Proof.
  unfold daynum_to_month_day, daynum_to_month_day_fuel,
    daynum_to_month_day_around.
  destruct (is_leap_year =? 0); [ | discriminate].
  cbn [bind].
  set (daysums := [31; 59; 90; 120; 151; 181; 212; 243; 273; 304; 334; 365]).
  destruct (month_search 13 daysums daynum 0) as [k | i | ] eqn:Hsearch;
    cbn [bind]; try discriminate.
  rewrite (table_search_in_table 13 daysums mem [] daynum 13 0 k (le_n 13) Hsearch).
  cbn [bind]. destruct (k >? 0).
  - destruct (load daysums (u32 (k - 1))) as [d | i | ] eqn:Hload; cbn [bind];
      try discriminate.
    intros H. injection H as <- <-.
    pose proof (load_Ok_bounds daysums (u32 (k - 1)) d Hload) as Hb.
    unfold table_load, in_table. cbn [cells].
    destruct (Z.leb_spec 0 (u32 (k - 1))); [ | lia].
    destruct (Z.ltb_spec (u32 (k - 1)) (Z.of_nat (length daysums))); [ | lia].
    cbn [andb bind stray].
    assert (Hnth : nth (Z.to_nat (u32 (k - 1))) daysums 0 = d).
    { unfold load in Hload. destruct (u32 (k - 1) <? 0); [discriminate | ].
      destruct (nth_error daysums (Z.to_nat (u32 (k - 1)))) as [v | ] eqn:Hv;
        [ | discriminate].
      injection Hload as <-. apply nth_error_nth. exact Hv. }
    rewrite Hnth. reflexivity.
  - cbn [bind stray]. intros H. injection H as <- <-. reflexivity.
Qed.

(** C8.  Whatever the memory around the table holds, day 59 of a common year
    is February 28, day 60 of a leap year is February 29 and day 1 of a
    common year is January 1.  The two common-year dates are found inside
    the table; the leap-year date is found after the adjustment loop has
    read and written [daysums[12]], which takes no part in the search. *)
Theorem daynum_to_month_day_dates (mem : Z -> Z) :
  daynum_to_month_day_around mem 59 0 = Ok (2, 28, [])
  /\ daynum_to_month_day_around mem 60 1 = Ok (2, 29, [12; 12])
  /\ daynum_to_month_day_around mem 1 0 = Ok (1, 1, []).
Proof. split; [ | split]; reflexivity. Qed.

(** ** Reliability tier *)

(** C9.  A worst score below 7 is LIKELY_OK, one of at least 7 and below 10
    is NOT_RELIABLE, any other is PROBABLY_BAD; so 6, 9 and 10 fall in the
    three tiers in turn. *)
Theorem summary_thresholds (frame_worst_sec_score : Z) :
  (frame_worst_sec_score < 7 -> summary frame_worst_sec_score = LIKELY_OK)
  /\ (7 <= frame_worst_sec_score < 10 ->
      summary frame_worst_sec_score = NOT_RELIABLE)
  /\ (10 <= frame_worst_sec_score ->
      summary frame_worst_sec_score = PROBABLY_BAD)
  /\ summary 6 = LIKELY_OK
  /\ summary 9 = NOT_RELIABLE
  /\ summary 10 = PROBABLY_BAD.
Proof.
  unfold summary. repeat split; try reflexivity; intros H.
  - destruct (Z.ltb_spec frame_worst_sec_score 7); [reflexivity | lia].
  - destruct (Z.ltb_spec frame_worst_sec_score 7); [lia | ].
    destruct (Z.ltb_spec frame_worst_sec_score 10); [reflexivity | lia].
  - destruct (Z.ltb_spec frame_worst_sec_score 7); [lia | ].
    destruct (Z.ltb_spec frame_worst_sec_score 10); [lia | reflexivity].
Qed.

Lemma summary_thresholds_witness :
  summary 3 = LIKELY_OK /\ summary 8 = NOT_RELIABLE /\ summary 40 = PROBABLY_BAD.
Proof.
  split; [ | split].
  - apply (proj1 (summary_thresholds 3)). lia.
  - apply (proj1 (proj2 (summary_thresholds 8))). lia.
  - apply (proj1 (proj2 (proj2 (summary_thresholds 40)))). lia.
Defined.

(** ** Bytes that are no carrier levels *)

(** The bound of C3 and C10 rests on samples that are 0 or 1.  The array can
    hold other bytes (a file read with [-i] may contain any); on a buffer of
    255s every candidate is abandoned at its first mark, whose error 10192
    exceeds the initial minimum, and the search returns its initial state:
    the index [2 * BLEN], outside the buffer. *)
Lemma find_frame_saturated :
  byte_buffer saturated_buffer = true
  /\ sample_buffer saturated_buffer = false
  /\ find_frame saturated_buffer = Ok (2 * BLEN, 4800).
Proof.
  split; [vm_compute; reflexivity | ]. split; [vm_compute; reflexivity | ].
  unfold find_frame, for_range.
  change (u32 (BLEN - SAMPLES_PER_SEC * 60)) with 2400.
  destruct (for_loop_inv (fun _ st => st = find_frame_init)
              (find_frame_body saturated_buffer) (Z.to_nat (2400 - 0)) 0
              find_frame_init) as (st & Hst & ->).
  - intros i t Hi ->. exists find_frame_init. split; [ | reflexivity].
    assert (Hmark : xor_mark saturated_buffer i = Ok 10192).
    { unfold xor_mark.
      rewrite (xor_sec_const saturated_buffer i (800 / SAMP_PERIOD)
                 (200 / SAMP_PERIOD) 255); try easy; try lia.
      - change (800 / SAMP_PERIOD) with 32. change (200 / SAMP_PERIOD) with 8. lia.
      - change (800 / SAMP_PERIOD) with 32. change (200 / SAMP_PERIOD) with 8.
        intros k Hk. unfold load, saturated_buffer.
        destruct (Z.ltb_spec k 0) as [Hneg | _]; [lia | ].
        rewrite nth_error_repeat; [reflexivity | ].
        change (Z.to_nat BLEN) with (Z.to_nat 4800). lia. }
    unfold find_frame_body, find_frame_init, xor_frame, frame_const_fields.
    cbn [xor_frame_loop]. unfold xor_frame_case. cbn [type sec].
    change (2 =? 0) with false. change (2 =? 2) with true. cbv iota.
    change (0 * SAMPLES_PER_SEC) with 0. rewrite Z.add_0_r.
    rewrite (u32_small i) by lia. rewrite Hmark. reflexivity.
  - reflexivity.
  - exact Hst.
Qed.

(** * Further properties *)

(** ** The symbol matcher as an error count *)

Lemma skipn_nth_error (l : list Z) :
  forall (k : nat) (b : Z),
    nth_error l k = Some b -> skipn k l = b :: skipn (S k) l.
Proof.
  induction l as [ | a l IH]; intros k b Hnth.
  - destruct k; discriminate.
  - destruct k as [ | k].
    + simpl in Hnth. injection Hnth as ->. reflexivity.
    + simpl in Hnth. rewrite skipn_cons. rewrite (IH k b Hnth). reflexivity.
Qed.

Lemma Zsum_app (l1 l2 : list Z) : Zsum (l1 ++ l2) = Zsum l1 + Zsum l2.
Proof. induction l1 as [ | a l1 IH]; simpl; [reflexivity | ]. rewrite IH. lia. Qed.

Lemma firstn_add (l : list Z) :
  forall a b : nat, firstn (a + b) l = firstn a l ++ firstn b (skipn a l).
Proof.
  induction l as [ | x l IH]; intros a b.
  - rewrite skipn_nil, !firstn_nil. reflexivity.
  - destruct a as [ | a]; [reflexivity | ].
    simpl. rewrite IH. reflexivity.
Qed.

Lemma levels_firstn_skipn (m : Z) (l : list Z) (n k : nat) :
  Forall (level_ok m) l -> Forall (level_ok m) (firstn n (skipn k l)).
Proof.
  intros Hl. rewrite Forall_forall in *. intros x Hx. apply Hl.
  rewrite <- (firstn_skipn k l). apply in_or_app. right.
  rewrite <- (firstn_skipn n (skipn k l)). apply in_or_app. left. exact Hx.
Qed.

Lemma Zsum_levels (m c : Z) (l : list Z) :
  c = 0 \/ c = 1 -> Forall (level_ok m) l ->
  0 <= Zsum (map (Z.lxor c) l) <= Z.of_nat (length l) * m.
Proof.
  intros Hc Hl. induction Hl as [ | b l [H0 H1] Hl IH].
  - simpl. lia.
  - cbn [map Zsum fold_right length]. fold (Zsum (map (Z.lxor c) l)).
    assert (0 <= Z.lxor c b <= m) by (destruct Hc as [-> | ->]; assumption).
    lia.
Qed.

Section Scores.

Variable bits : list Z.
Variable m : Z.
Hypothesis Hm : 0 <= m <= 255.
Hypothesis Hlen : Z.of_nat (length bits) = BLEN.
Hypothesis Hlevels : Forall (level_ok m) bits.

(** The summing loop of [xor_sec] in closed form. *)
Lemma sum_loop_closed (c : Z) :
  c = 0 \/ c = 1 ->
  forall (n : nat) (lo acc : Z),
    0 <= lo -> lo + Z.of_nat n <= BLEN ->
    0 <= acc -> acc + Z.of_nat n * m < 2 ^ 32 ->
    for_loop n lo (fun i sum => b <- load bits i ;; Ok (u32 (sum + Z.lxor c b)))
      acc
    = Ok (acc + Zsum (map (Z.lxor c) (firstn n (skipn (Z.to_nat lo) bits)))).
Proof.
  intros Hc. induction n as [ | n IH]; intros lo acc Hlo Hhi Hacc Hmax.
  - simpl. f_equal. lia.
  - cbn [for_loop].
    assert (Hnth : exists b, nth_error bits (Z.to_nat lo) = Some b).
    { destruct (nth_error bits (Z.to_nat lo)) as [b | ] eqn:E; [eauto | ].
      apply nth_error_None in E. lia. }
    destruct Hnth as [b Hb].
    assert (Hload : load bits lo = Ok b).
    { unfold load. destruct (Z.ltb_spec lo 0); [lia | ]. rewrite Hb. reflexivity. }
    assert (Hlev : 0 <= Z.lxor c b <= m).
    { apply nth_error_In in Hb. rewrite Forall_forall in Hlevels.
      destruct (Hlevels b Hb) as [H0 H1]. destruct Hc as [-> | ->]; assumption. }
    rewrite Hload. cbn [bind]. rewrite u32_small by nia.
    rewrite IH by nia.
    rewrite (skipn_nth_error bits (Z.to_nat lo) b Hb).
    replace (Z.to_nat (lo + 1)) with (S (Z.to_nat lo)) by lia.
    cbn [firstn map Zsum fold_right]. f_equal. unfold Zsum. lia.
Qed.

Lemma xor_sec_closed (samp_idx zero_len one_len : Z) :
  0 <= samp_idx -> 0 <= zero_len -> 0 <= one_len ->
  samp_idx + zero_len + one_len <= BLEN ->
  xor_sec bits samp_idx zero_len one_len
  = Ok (Zsum (map (Z.lxor 0) (span bits samp_idx zero_len))
        + Zsum (map (Z.lxor 1) (span bits (samp_idx + zero_len) one_len))).
Proof.
  intros Hi Hz Ho Hend. rewrite BLEN_val in Hend. unfold xor_sec, for_range, span.
  rewrite (u32_small (samp_idx + zero_len)) by lia.
  rewrite (u32_small (samp_idx + zero_len + one_len)) by lia.
  replace (samp_idx + zero_len - samp_idx) with zero_len by lia.
  replace (samp_idx + zero_len + one_len - (samp_idx + zero_len))
    with one_len by lia.
  rewrite (sum_loop_closed 0) by (rewrite ?BLEN_val; (left; reflexivity) || nia).
  cbn [bind].
  assert (Hfirst : 0 <= Zsum (map (Z.lxor 0)
                            (firstn (Z.to_nat zero_len)
                               (skipn (Z.to_nat samp_idx) bits)))
                   <= zero_len * m).
  { pose proof (Zsum_levels m 0 (firstn (Z.to_nat zero_len)
                                   (skipn (Z.to_nat samp_idx) bits))
                  (or_introl eq_refl)
                  (levels_firstn_skipn m bits _ _ Hlevels)) as Hb.
    rewrite length_firstn in Hb. nia. }
  rewrite (sum_loop_closed 1) by (rewrite ?BLEN_val; (right; reflexivity) || nia).
  rewrite Z.add_0_l. reflexivity.
Qed.

(** [xor_sec] sees the buffer only through the samples of the span it is
    asked about. *)
Lemma xor_sec_window (samp_idx zero_len one_len : Z) :
  0 <= samp_idx -> 0 <= zero_len -> 0 <= one_len ->
  samp_idx + zero_len + one_len <= BLEN ->
  xor_sec bits samp_idx zero_len one_len
  = Ok (template_errors zero_len one_len
          (span bits samp_idx (zero_len + one_len))).
Proof.
  intros Hi Hz Ho Hend. rewrite xor_sec_closed by assumption.
  unfold template_errors, span.
  set (l := skipn (Z.to_nat samp_idx) bits).
  assert (E1 : firstn (Z.to_nat zero_len) (firstn (Z.to_nat (zero_len + one_len)) l)
               = firstn (Z.to_nat zero_len) l).
  { rewrite firstn_firstn. f_equal. lia. }
  assert (E2 : firstn (Z.to_nat one_len)
                 (skipn (Z.to_nat zero_len)
                    (firstn (Z.to_nat (zero_len + one_len)) l))
               = firstn (Z.to_nat one_len)
                   (skipn (Z.to_nat (samp_idx + zero_len)) bits)).
  { rewrite skipn_firstn_comm, firstn_firstn. subst l. rewrite skipn_skipn.
    replace (Z.to_nat zero_len + Z.to_nat samp_idx)%nat
      with (Z.to_nat (samp_idx + zero_len)) by lia.
    f_equal. lia. }
  rewrite E1, E2. reflexivity.
Qed.

End Scores.

Lemma level_ok_1_bit (b : Z) : level_ok 1 b -> b = 0 \/ b = 1.
Proof. unfold level_ok. rewrite Z.lxor_0_l. lia. Qed.

Lemma Zsum_count_level (l : list Z) :
  Forall (level_ok 1) l ->
  Zsum (map (Z.lxor 0) l) = count_level 1 l
  /\ Zsum (map (Z.lxor 1) l) = count_level 0 l.
Proof.
  unfold count_level. induction 1 as [ | b l Hb Hl [IH0 IH1]].
  - split; reflexivity.
  - cbn [map Zsum fold_right]. fold (Zsum (map (Z.lxor 0) l)).
    fold (Zsum (map (Z.lxor 1) l)). rewrite IH0, IH1.
    destruct (level_ok_1_bit b Hb) as [-> | ->]; split; simpl count_occ;
      change (Z.lxor 0 0) with 0; change (Z.lxor 1 0) with 1;
      change (Z.lxor 0 1) with 1; change (Z.lxor 1 1) with 0; lia.
Qed.

(** X1.  On a buffer of carrier levels [xor_sec] returns the number of
    samples of the low sub-span that are 1 plus the number of samples of the
    high sub-span that are 0. *)
Theorem xor_sec_counts_errors (bits : list Z) (samp_idx zero_len one_len : Z) :
  sample_buffer bits = true ->
  0 <= samp_idx -> 0 <= zero_len -> 0 <= one_len ->
  samp_idx + zero_len + one_len <= BLEN ->
  xor_sec bits samp_idx zero_len one_len
  = Ok (count_level 1 (span bits samp_idx zero_len)
        + count_level 0 (span bits (samp_idx + zero_len) one_len)).
Proof.
  intros Hbuf Hi Hz Ho Hend. apply sample_buffer_spec in Hbuf as [Hlen Hlev].
  assert (Hm : 0 <= 1 <= 255) by lia.
  rewrite (xor_sec_closed bits 1 Hm Hlen Hlev) by assumption. unfold span.
  rewrite (proj1 (Zsum_count_level _ (levels_firstn_skipn 1 bits _ _ Hlev))).
  rewrite (proj2 (Zsum_count_level _ (levels_firstn_skipn 1 bits _ _ Hlev))).
  reflexivity.
Qed.

Lemma xor_sec_counts_errors_witness :
  xor_sec tie_buffer 0 8 32
  = Ok (count_level 1 (span tie_buffer 0 8)
        + count_level 0 (span tie_buffer (0 + 8) 32)).
Proof.
  apply (xor_sec_counts_errors tie_buffer 0 8 32).
  - vm_compute. reflexivity.
  - lia.
  - lia.
  - lia.
  - vm_compute. discriminate.
Defined.

(** [decode_sec] is [classify_second] of the samples of the second. *)
Lemma decode_sec_classify (bits : list Z) (m samp_idx : Z) :
  0 <= m <= 255 ->
  Z.of_nat (length bits) = BLEN -> Forall (level_ok m) bits ->
  0 <= samp_idx <= BLEN - SAMPLES_PER_SEC ->
  xor_zero bits samp_idx = Ok (template_errors 8 32 (second bits samp_idx))
  /\ xor_one bits samp_idx = Ok (template_errors 20 20 (second bits samp_idx))
  /\ xor_mark bits samp_idx = Ok (template_errors 32 8 (second bits samp_idx))
  /\ decode_sec bits samp_idx = Ok (classify_second (second bits samp_idx)).
Proof.
  intros Hm Hlen Hlev Hi. rewrite BLEN_val, SAMPLES_PER_SEC_val in Hi.
  assert (Hz : xor_zero bits samp_idx
               = Ok (template_errors 8 32 (second bits samp_idx))).
  { unfold xor_zero. change (200 / SAMP_PERIOD) with 8.
    change (800 / SAMP_PERIOD) with 32.
    rewrite (xor_sec_window bits m Hm Hlen Hlev) by (rewrite ?BLEN_val; lia).
    reflexivity. }
  assert (Ho : xor_one bits samp_idx
               = Ok (template_errors 20 20 (second bits samp_idx))).
  { unfold xor_one. change (500 / SAMP_PERIOD) with 20.
    rewrite (xor_sec_window bits m Hm Hlen Hlev) by (rewrite ?BLEN_val; lia).
    reflexivity. }
  assert (Hk : xor_mark bits samp_idx
               = Ok (template_errors 32 8 (second bits samp_idx))).
  { unfold xor_mark. change (200 / SAMP_PERIOD) with 8.
    change (800 / SAMP_PERIOD) with 32.
    rewrite (xor_sec_window bits m Hm Hlen Hlev) by (rewrite ?BLEN_val; lia).
    reflexivity. }
  repeat (split; [assumption | ]).
  unfold decode_sec, classify_second. rewrite Hz, Ho, Hk. cbn [bind].
  destruct (template_errors 20 20 (second bits samp_idx)
            <? template_errors 8 32 (second bits samp_idx));
    destruct (template_errors 32 8 (second bits samp_idx) <? _); reflexivity.
Qed.

(** X2.  [decode_sec] looks at nothing but the samples of its second: two
    in-bounds seconds with the same samples, in the same buffer or in two,
    classify alike. *)
Theorem decode_sec_local (bits1 bits2 : list Z) (samp_idx1 samp_idx2 : Z) :
  byte_buffer bits1 = true -> byte_buffer bits2 = true ->
  0 <= samp_idx1 <= BLEN - SAMPLES_PER_SEC ->
  0 <= samp_idx2 <= BLEN - SAMPLES_PER_SEC ->
  second bits1 samp_idx1 = second bits2 samp_idx2 ->
  decode_sec bits1 samp_idx1 = decode_sec bits2 samp_idx2.
Proof.
  intros Hb1 Hb2 Hi1 Hi2 Hsec.
  apply byte_buffer_spec in Hb1 as [Hlen1 Hlev1].
  apply byte_buffer_spec in Hb2 as [Hlen2 Hlev2].
  assert (Hm : 0 <= 255 <= 255) by lia.
  destruct (decode_sec_classify bits1 255 samp_idx1 Hm Hlen1 Hlev1 Hi1)
    as (_ & _ & _ & ->).
  destruct (decode_sec_classify bits2 255 samp_idx2 Hm Hlen2 Hlev2 Hi2)
    as (_ & _ & _ & ->).
  rewrite Hsec. reflexivity.
Qed.

Lemma decode_sec_local_witness :
  decode_sec ideal_buffer 0 = decode_sec ideal_buffer 2400.
Proof.
  apply (decode_sec_local ideal_buffer ideal_buffer 0 2400).
  - vm_compute. reflexivity.
  - vm_compute. reflexivity.
  - vm_compute. split; discriminate.
  - vm_compute. split; discriminate.
  - vm_compute. reflexivity.
Defined.

(** X3.  An in-bounds second that holds the ideal waveform of a symbol
    (zero, one or mark) classifies as that symbol with score 0. *)
Theorem decode_sec_ideal_second (bits : list Z) (samp_idx symbol : Z) :
  byte_buffer bits = true ->
  0 <= samp_idx <= BLEN - SAMPLES_PER_SEC ->
  symbol = 0 \/ symbol = 1 \/ symbol = 2 ->
  second bits samp_idx = ideal_second symbol ->
  decode_sec bits samp_idx = Ok (symbol, 0).
Proof.
  intros Hbuf Hi Hsym Hsec. apply byte_buffer_spec in Hbuf as [Hlen Hlev].
  assert (Hm : 0 <= 255 <= 255) by lia.
  destruct (decode_sec_classify bits 255 samp_idx Hm Hlen Hlev Hi)
    as (_ & _ & _ & ->).
  rewrite Hsec. destruct Hsym as [-> | [-> | ->]]; reflexivity.
Qed.

Lemma decode_sec_ideal_second_witness :
  decode_sec ideal_buffer 40 = Ok (1, 0).
Proof.
  apply (decode_sec_ideal_second ideal_buffer 40 1).
  - vm_compute. reflexivity.
  - vm_compute. split; discriminate.
  - right. left. reflexivity.
  - vm_compute. reflexivity.
Defined.

Lemma Zsum_complement (l : list Z) :
  Forall (level_ok 1) l ->
  Zsum (map (Z.lxor 0) l) + Zsum (map (Z.lxor 1) l) = Z.of_nat (length l).
Proof.
  induction 1 as [ | b l Hb Hl IH].
  - reflexivity.
  - cbn [map Zsum fold_right length]. fold (Zsum (map (Z.lxor 0) l)).
    fold (Zsum (map (Z.lxor 1) l)).
    destruct (level_ok_1_bit b Hb) as [-> | ->];
      change (Z.lxor 0 0) with 0; change (Z.lxor 1 0) with 1;
      change (Z.lxor 0 1) with 1; change (Z.lxor 1 1) with 0; lia.
Qed.

(** The errors against the ideal zero and against the ideal mark cannot
    both be large: the 24 samples in which the two templates differ are
    wrong for one of them only. *)
Lemma zero_mark_errors (w : list Z) :
  Forall (level_ok 1) w ->
  template_errors 8 32 w + template_errors 32 8 w <= 56.
Proof.
  intros Hw. unfold template_errors.
  change (Z.to_nat 32) with (8 + 24)%nat at 2.
  change (Z.to_nat 32) with (24 + 8)%nat at 1.
  change (Z.to_nat 8) with 8%nat. change (Z.to_nat 32) with 32%nat.
  rewrite !firstn_add, !map_app, !Zsum_app, skipn_skipn.
  change (24 + 8)%nat with 32%nat.
  assert (Hlev : forall n k, Forall (level_ok 1) (firstn n (skipn k w)))
    by (intros n k; apply levels_firstn_skipn; exact Hw).
  pose proof (Zsum_levels 1 0 (firstn 8 (skipn 0 w)) (or_introl eq_refl) (Hlev _ _))
    as Ha.
  pose proof (Zsum_levels 1 1 (firstn 8 (skipn 32 w)) (or_intror eq_refl) (Hlev _ _))
    as Hc.
  pose proof (Zsum_complement (firstn 24 (skipn 8 w)) (Hlev _ _)) as Hmid.
  pose proof (Zsum_levels 1 0 (firstn 24 (skipn 8 w)) (or_introl eq_refl) (Hlev _ _))
    as Hmid0.
  pose proof (Zsum_levels 1 1 (firstn 24 (skipn 8 w)) (or_intror eq_refl) (Hlev _ _))
    as Hmid1.
  rewrite skipn_0 in Ha. rewrite length_firstn in *. lia.
Qed.

Lemma decode_sec_bound_28 (bits : list Z) (samp_idx : Z) :
  Z.of_nat (length bits) = BLEN -> Forall (level_ok 1) bits ->
  0 <= samp_idx <= BLEN - SAMPLES_PER_SEC ->
  exists r s, decode_sec bits samp_idx = Ok (r, s)
              /\ (r = 0 \/ r = 1 \/ r = 2) /\ 0 <= s <= 28.
Proof.
  intros Hlen Hlev Hi. assert (Hm : 0 <= 1 <= 255) by lia.
  destruct (decode_sec_classify bits 1 samp_idx Hm Hlen Hlev Hi)
    as (Hz & Ho & Hk & _).
  destruct (decode_sec_cases bits samp_idx _ _ _ Hz Ho Hk)
    as (r & s & Hd & Hs & _).
  destruct (decode_sec_ok bits 1 samp_idx Hm Hlen Hlev Hi)
    as (r' & s' & Hd' & Hr' & Hs').
  rewrite Hd in Hd'. injection Hd' as <- <-.
  exists r, s. split; [exact Hd | ]. split; [exact Hr' | ].
  pose proof (zero_mark_errors (second bits samp_idx)
                (levels_firstn_skipn 1 bits _ _ Hlev)) as Hzm.
  lia.
Qed.

(** X4.  On a buffer of carrier levels the score of [decode_sec] never
    exceeds 28 of the 40 samples of a second; in particular it stays below
    the worst score [SAMPLES_PER_SEC] that [decode_field] reports for a
    failed field. *)
Theorem decode_sec_score_at_most_28 (bits : list Z) (samp_idx : Z) :
  sample_buffer bits = true ->
  0 <= samp_idx <= BLEN - SAMPLES_PER_SEC ->
  exists r s, decode_sec bits samp_idx = Ok (r, s)
              /\ 0 <= s <= 28 /\ s < SAMPLES_PER_SEC.
Proof.
  intros Hbuf Hi. apply sample_buffer_spec in Hbuf as [Hlen Hlev].
  destruct (decode_sec_bound_28 bits samp_idx Hlen Hlev Hi)
    as (r & s & Hd & _ & Hs).
  exists r, s. split; [exact Hd | ]. rewrite SAMPLES_PER_SEC_val. lia.
Qed.

Lemma decode_sec_score_at_most_28_witness :
  exists r s, decode_sec tie_buffer 0 = Ok (r, s)
              /\ 0 <= s <= 28 /\ s < SAMPLES_PER_SEC.
Proof.
  apply (decode_sec_score_at_most_28 tie_buffer 0).
  - vm_compute. reflexivity.
  - vm_compute. split; discriminate.
Defined.

(** The bound is reached: with the first eight samples high, the last eight
    low and the twelve samples of each middle sub-span half high, all three
    templates score 28. *)
Example decode_sec_score_28 :
  sample_buffer worst_buffer = true
  /\ decode_sec worst_buffer 0 = Ok (0, 28).
Proof. split; vm_compute; reflexivity. Qed.

(** ** More on the frame synchroniser *)









(** ** More on the field decoder *)

Lemma Zmax_bounds (l : list Z) :
  Forall (fun s => 0 <= s) l ->
  0 <= Zmax l /\ Zmax l <= Zsum l /\ Zsum l <= Z.of_nat (length l) * Zmax l.
Proof.
  induction 1 as [ | s l Hs Hl IH].
  - simpl. lia.
  - cbn [Zmax Zsum fold_right length]. fold (Zmax l). fold (Zsum l). nia.
Qed.

Lemma Zmax_le (B : Z) (l : list Z) :
  0 <= B -> Forall (fun s => s <= B) l -> Zmax l <= B.
Proof.
  intros HB. induction 1 as [ | s l Hs Hl IH]; simpl; [exact HB | ].
  fold (Zmax l). lia.
Qed.

Lemma weighted_sum_bounds (code : list code_t) (rs : list (Z * Z)) :
  length code = length rs ->
  Forall (fun c => 0 <= weight c) code ->
  Forall (fun r => fst r = 0 \/ fst r = 1) rs ->
  0 <= weighted_sum code rs <= Zsum (map weight code).
Proof.
  unfold weighted_sum. revert rs.
  induction code as [ | c code IH]; intros rs Hlen Hw Hrs.
  - simpl. lia.
  - destruct rs as [ | r rs]; [discriminate | ].
    inversion Hw as [ | c' code' Hc Hw']; subst.
    inversion Hrs as [ | r' rs' Hr Hrs']; subst.
    injection Hlen as Hlen. specialize (IH rs Hlen Hw' Hrs').
    cbn [combine map Zsum fold_right fst snd].
    fold (Zsum (map (fun cr => weight (fst cr) * fst (snd cr)) (combine code rs))).
    fold (Zsum (map weight code)).
    destruct Hr as [-> | ->]; lia.
Qed.

Section FieldOutcome.

Variable bits : list Z.
Hypothesis Hlen : Z.of_nat (length bits) = BLEN.
Hypothesis Hlevels : Forall (level_ok 1) bits.

Variable frame_idx : Z.
Hypothesis Hidx : 0 <= frame_idx <= BLEN - SAMPLES_PER_SEC * 60.

(** Every position of a code in the frame classifies, with a score of at
    most 28. *)
Lemma classify_all (code : list code_t) :
  code_in_frame code ->
  exists rs, classified bits frame_idx code rs
             /\ Forall (fun r => (fst r = 0 \/ fst r = 1 \/ fst r = 2)
                                 /\ 0 <= snd r <= 28) rs.
Proof.
  unfold classified. induction 1 as [ | c code Hc Hcode (rs & Hcl & Hrs)].
  - exists []. split; constructor.
  - destruct (decode_sec_bound_28 bits (code_sample frame_idx c) Hlen Hlevels)
      as (r & s & Hd & Hr & Hs); [apply code_sample_in_bounds; assumption | ].
    exists ((r, s) :: rs). split; constructor; try assumption. split; assumption.
Qed.

Lemma classified_marker_or_not (code : list code_t) (rs : list (Z * Z)) :
  classified bits frame_idx code rs ->
  Exists (is_marker bits frame_idx) code
  \/ (Forall (not_marker bits frame_idx) code /\ Forall (fun r => fst r <> 2) rs).
Proof.
  unfold classified. induction 1 as [ | c [r s] code rs Hc Hcl IH].
  - right. split; constructor.
  - destruct (Z.eq_dec r 2) as [-> | Hne].
    + left. constructor. exists s. exact Hc.
    + destruct IH as [Hex | [Hnot Hrs]].
      * left. apply Exists_cons_tl. exact Hex.
      * right. split; constructor; try assumption. exists r, s. split; assumption.
Qed.

End FieldOutcome.

(** X8.  On a buffer of carrier levels, for a code table of the decoder and
    a frame start in the buffer, [decode_field] has two outcomes.  Some
    position is a mark: value 0, score [DECODE_FAILURE], worst score
    [SAMPLES_PER_SEC].  No position is a mark: the value lies between 0 and
    the sum of the weights, the worst score is at most 28, and the score
    lies between the worst score and the worst score times the number of
    positions.  So a worst score of 40 tells a failed field from a decoded
    one. *)
Theorem decode_field_outcome (bits : list Z) (frame_idx : Z)
  (code : list code_t) :
  sample_buffer bits = true ->
  code_ok code = true ->
  0 <= frame_idx <= BLEN - SAMPLES_PER_SEC * 60 ->
  exists v s w,
    decode_field bits frame_idx code = Ok (v, s, w)
    /\ ((Exists (is_marker bits frame_idx) code
         /\ v = 0 /\ s = DECODE_FAILURE /\ w = SAMPLES_PER_SEC)
        \/ (Forall (not_marker bits frame_idx) code
            /\ 0 <= v <= Zsum (map weight code)
            /\ 0 <= w <= 28
            /\ w <= s <= Z.of_nat (length code) * w)).
Proof.
  intros Hbuf Hcode Hidx.
  apply sample_buffer_spec in Hbuf as [Hlen Hlev].
  unfold code_ok in Hcode.
  apply andb_true_iff in Hcode as [Hcode Hcount].
  apply andb_true_iff in Hcode as [Hentries Hweights].
  apply Z.ltb_lt in Hcount, Hweights.
  rewrite forallb_forall in Hentries.
  assert (Hin : code_in_frame code).
  { apply Forall_forall. intros c Hc. specialize (Hentries c Hc). lia. }
  assert (Hw : Forall (fun c => 0 <= weight c) code).
  { apply Forall_forall. intros c Hc. specialize (Hentries c Hc). lia. }
  destruct (classify_all bits Hlen Hlev frame_idx Hidx code Hin) as (rs & Hcl & Hrs).
  destruct (classified_marker_or_not bits frame_idx code rs Hcl)
    as [Hex | [Hnot Hno]].
  - exists 0, DECODE_FAILURE, SAMPLES_PER_SEC. split; [ | left; auto].
    assert (Hall : Forall (fun c => exists r,
                             decode_sec bits (code_sample frame_idx c) = Ok r) code).
    { clear - Hcl. induction Hcl; constructor; eauto. }
    destruct (first_marker bits frame_idx code Hall Hex)
      as (pre & c & post & -> & Hpre & Hc).
    unfold decode_field. apply decode_field_loop_marker; assumption.
  - assert (Hrs01 : Forall (fun r => (fst r = 0 \/ fst r = 1) /\ 0 <= snd r <= 28) rs).
    { rewrite Forall_forall in *. intros r Hr.
      specialize (Hrs r Hr). specialize (Hno r Hr). lia. }
    exists (weighted_sum code rs), (Zsum (map snd rs)), (Zmax (map snd rs)).
    assert (Hsame : length code = length rs)
      by (clear - Hcl; induction Hcl; simpl; congruence).
    assert (Hnn : Forall (fun s => 0 <= s) (map snd rs)).
    { apply Forall_forall. intros s Hs. apply in_map_iff in Hs as (r & <- & Hr).
      rewrite Forall_forall in Hrs01. apply (Hrs01 r Hr). }
    assert (H28 : Forall (fun s => s <= 28) (map snd rs)).
    { apply Forall_forall. intros s Hs. apply in_map_iff in Hs as (r & <- & Hr).
      rewrite Forall_forall in Hrs01. apply (Hrs01 r Hr). }
    destruct (Zmax_bounds (map snd rs) Hnn) as (Hmax0 & Hmaxsum & Hsummax).
    split.
    + unfold decode_field.
      rewrite (decode_field_loop_no_marker bits frame_idx 28 code rs);
        try assumption; try lia.
      rewrite !Z.add_0_l, Z.max_r by exact Hmax0. reflexivity.
    + right. split; [exact Hnot | ]. split.
      * apply weighted_sum_bounds; try assumption.
        rewrite Forall_forall in *. intros r Hr. apply (Hrs01 r Hr).
      * split; [split; [exact Hmax0 | apply Zmax_le; [lia | exact H28]] | ].
        rewrite length_map in Hsummax. rewrite Hsame. lia.
Qed.

Lemma decode_field_outcome_witness :
  exists v s w,
    decode_field ideal_buffer 40 minutes_code = Ok (v, s, w)
    /\ ((Exists (is_marker ideal_buffer 40) minutes_code
         /\ v = 0 /\ s = DECODE_FAILURE /\ w = SAMPLES_PER_SEC)
        \/ (Forall (not_marker ideal_buffer 40) minutes_code
            /\ 0 <= v <= Zsum (map weight minutes_code)
            /\ 0 <= w <= 28
            /\ w <= s <= Z.of_nat (length minutes_code) * w)).
Proof.
  apply (decode_field_outcome ideal_buffer 40 minutes_code).
  - vm_compute. reflexivity.
  - vm_compute. reflexivity.
  - vm_compute. split; discriminate.
Defined.

(** ** The frame decoder and the summary *)

Lemma u32_add_l (a b : Z) : u32 (u32 a + b) = u32 (a + b).
Proof. unfold u32. apply Zplus_mod_idemp_l. Qed.

Lemma decode_frame_loop_fields (bits : list Z) (frame_idx : Z) :
  forall (fields : list field_t) (total total' : Z) (fields' : list field_t),
    decode_frame_loop bits frame_idx fields total = Ok (total', fields') ->
    Forall2 (decoded_as bits frame_idx) fields fields'
    /\ u32 total' = u32 (total + Zsum (map score fields'))
    /\ (0 <= total < 2 ^ 32 -> 0 <= total' < 2 ^ 32).
Proof.
  intros fields. induction fields as [ | f rest IH];
    intros total total' fields' Hrun.
  - simpl in Hrun. injection Hrun as <- <-.
    split; [constructor | ]. split; [simpl; f_equal; lia | auto].
  - cbn [decode_frame_loop] in Hrun.
    destruct (decode_field bits frame_idx (code f)) as [[[v s] w] | i | ] eqn:Hf;
      cbn [bind] in Hrun; try discriminate.
    destruct (decode_frame_loop bits frame_idx rest (u32 (total + s)))
      as [[t rest'] | i | ] eqn:Hrest; cbn [bind] in Hrun; try discriminate.
    injection Hrun as <- <-.
    destruct (IH _ _ _ Hrest) as (Hall & Htotal & Hin).
    split; [ | split].
    + constructor; [ | exact Hall]. unfold decoded_as. simpl. auto.
    + rewrite Htotal. cbn [map Zsum fold_right score].
      fold (Zsum (map score rest')). rewrite u32_add_l. f_equal. lia.
    + intros _. apply Hin. apply u32_range.
Qed.

(** X9.  [decode_frame] writes into every field what [decode_field] returns
    for the code of that field alone, leaves the name, the width and the
    code of the field as they were, and returns the sum of the scores it
    stored, as a [uint32_t]. *)
Theorem decode_frame_fields (bits : list Z) (frame_idx total : Z)
  (fields fields' : list field_t) :
  decode_frame bits frame_idx fields = Ok (total, fields') ->
  Forall2 (decoded_as bits frame_idx) fields fields'
  /\ total = u32 (Zsum (map score fields')).
Proof.
  unfold decode_frame. intros Hrun.
  destruct (decode_frame_loop_fields bits frame_idx fields 0 total fields' Hrun)
    as (Hall & Htotal & Hin).
  split; [exact Hall | ]. rewrite Z.add_0_l in Htotal. rewrite <- Htotal.
  symmetry. apply u32_small. apply Hin. lia.
Qed.

Lemma decode_frame_fields_witness :
  Forall2 (decoded_as ideal_buffer 0) frame (snd ideal_decode)
  /\ fst ideal_decode = u32 (Zsum (map score (snd ideal_decode))).
Proof.
  apply (decode_frame_fields ideal_buffer 0 (fst ideal_decode) frame
           (snd ideal_decode)).
  vm_compute. reflexivity.
Defined.

Lemma decode_field_loop_marker_result (bits : list Z) (frame_idx : Z) :
  forall (code : list code_t) (field_val lscore worst : Z) (r : Z * Z * Z),
    Exists (is_marker bits frame_idx) code ->
    decode_field_loop bits frame_idx code field_val lscore worst = Ok r ->
    r = (0, DECODE_FAILURE, SAMPLES_PER_SEC).
Proof.
  intros code. induction code as [ | c code IH];
    intros field_val lscore worst r Hex Hrun.
  - inversion Hex.
  - cbn [decode_field_loop] in Hrun.
    destruct (decode_sec bits (code_sample frame_idx c)) as [[res sc] | i | ] eqn:Hc;
      cbn [bind] in Hrun; try discriminate.
    destruct (Z.eqb_spec res 2) as [-> | Hne].
    + injection Hrun as <-. reflexivity.
    + eapply IH; [ | exact Hrun].
      inversion Hex as [c' code' [s Hs] | c' code' Hrest]; subst; [ | exact Hrest].
      rewrite Hc in Hs. congruence.
Qed.

Lemma frame_worst_fold (fields : list field_t) :
  forall acc f,
    In f fields ->
    worst_score f
    <= fold_left
         (fun worst f => if worst_score f >? worst then worst_score f else worst)
         fields acc.
Proof.
  induction fields as [ | g rest IH]; intros acc f Hin; [inversion Hin | ].
  assert (Hmono : forall l a,
             a <= fold_left
                    (fun worst f =>
                       if worst_score f >? worst then worst_score f else worst)
                    l a).
  { induction l as [ | h l IHl]; intros a; simpl; [lia | ].
    eapply Z.le_trans; [ | apply IHl].
    destruct (Z.gtb_spec (worst_score h) a); lia. }
  simpl. destruct Hin as [-> | Hin].
  - eapply Z.le_trans; [ | apply Hmono].
    destruct (Z.gtb_spec (worst_score f) acc); lia.
  - apply IH. exact Hin.
Qed.

(** X10.  When a position of any field classifies as a mark, the worst
    score that [main] computes over the decoded frame is at least
    [SAMPLES_PER_SEC] and the summary is PROBABLY_BAD. *)
Theorem failed_field_probably_bad (bits : list Z) (frame_idx total : Z)
  (fields fields' : list field_t) :
  decode_frame bits frame_idx fields = Ok (total, fields') ->
  Exists (fun f => Exists (is_marker bits frame_idx) (code f)) fields ->
  SAMPLES_PER_SEC <= frame_worst_sec_score fields'
  /\ summary (frame_worst_sec_score fields') = PROBABLY_BAD.
Proof.
  unfold decode_frame. intros Hrun Hex.
  destruct (decode_frame_loop_fields bits frame_idx fields 0 total fields' Hrun)
    as (Hall & _).
  assert (Hfailed : exists f', In f' fields' /\ worst_score f' = SAMPLES_PER_SEC).
  { clear Hrun. induction Hall as [ | f f' fields fields' Hf Hall IH].
    - inversion Hex.
    - inversion Hex as [g l Hmark | g l Hrest]; subst.
      + exists f'. split; [left; reflexivity | ].
        destruct Hf as (Hd & _).
        apply (decode_field_loop_marker_result bits frame_idx (code f) 0 0 0)
          in Hd; [ | exact Hmark].
        congruence.
      + destruct (IH Hrest) as (g' & Hin & Hw). exists g'. split; [right | ]; assumption. }
  destruct Hfailed as (f' & Hin & Hw).
  assert (Hge : SAMPLES_PER_SEC <= frame_worst_sec_score fields').
  { rewrite <- Hw. unfold frame_worst_sec_score. apply frame_worst_fold. exact Hin. }
  split; [exact Hge | ]. rewrite SAMPLES_PER_SEC_val in Hge. unfold summary.
  destruct (Z.ltb_spec (frame_worst_sec_score fields') 7); [lia | ].
  destruct (Z.ltb_spec (frame_worst_sec_score fields') 10); [lia | reflexivity].
Qed.

Lemma failed_field_probably_bad_witness :
  SAMPLES_PER_SEC <= frame_worst_sec_score (snd shifted_decode)
  /\ summary (frame_worst_sec_score (snd shifted_decode)) = PROBABLY_BAD.
Proof.
  apply (failed_field_probably_bad ideal_buffer 40 (fst shifted_decode) frame).
  - vm_compute. reflexivity.
  - apply Exists_cons_tl. apply Exists_cons_hd.
    unfold mk_field, code, minutes_code.
    do 6 apply Exists_cons_tl. apply Exists_cons_hd.
    exists 0. vm_compute. reflexivity.
Defined.

Lemma decode_field_loop_positions (bits : list Z) (frame_idx : Z) :
  forall (code : list code_t) (field_val lscore worst v s w : Z),
    decode_field_loop bits frame_idx code field_val lscore worst = Ok (v, s, w) ->
    w < SAMPLES_PER_SEC ->
    worst <= w /\ Forall (read_below bits frame_idx (w + 1)) code.
Proof.
  intros code. induction code as [ | c code IH];
    intros field_val lscore worst v s w Hrun Hw.
  - simpl in Hrun. injection Hrun as <- <- <-. split; [lia | constructor].
  - cbn [decode_field_loop] in Hrun.
    destruct (decode_sec bits (code_sample frame_idx c)) as [[res sc] | i | ] eqn:Hc;
      cbn [bind] in Hrun; try discriminate.
    destruct (Z.eqb_spec res 2) as [-> | Hne].
    + injection Hrun as <- <- <-. lia.
    + destruct (IH _ _ _ _ _ _ Hrun Hw) as (Hle & Hrest).
      assert (Hmax : worst <= w /\ sc <= w)
        by (destruct (Z.gtb_spec sc worst); lia).
      split; [lia | ]. constructor; [ | exact Hrest].
      exists res, sc. split; [exact Hc | ]. split; [exact Hne | lia].
Qed.

(** X11.  When the summary of a decoded frame is LIKELY_OK, every position of
    every field was read as a zero or a one, none as a mark, with fewer than
    7 of its 40 samples in error. *)
Theorem likely_ok_positions (bits : list Z) (frame_idx total : Z)
  (fields fields' : list field_t) :
  decode_frame bits frame_idx fields = Ok (total, fields') ->
  summary (frame_worst_sec_score fields') = LIKELY_OK ->
  Forall (fun f => Forall (read_below bits frame_idx 7) (code f)) fields.
Proof.
  unfold decode_frame. intros Hrun Hsum.
  destruct (decode_frame_loop_fields bits frame_idx fields 0 total fields' Hrun)
    as (Hall & _).
  assert (Hlt : frame_worst_sec_score fields' < 7).
  { unfold summary in Hsum.
    destruct (Z.ltb_spec (frame_worst_sec_score fields') 7); [assumption | ].
    destruct (frame_worst_sec_score fields' <? 10); discriminate. }
  assert (Heach : forall f', In f' fields' -> worst_score f' < 7).
  { intros f' Hin. eapply Z.le_lt_trans; [ | exact Hlt].
    unfold frame_worst_sec_score. apply frame_worst_fold. exact Hin. }
  clear Hrun Hsum Hlt. induction Hall as [ | f f' fields fields' Hf Hall IH].
  - constructor.
  - constructor; [ | apply IH; intros g Hg; apply Heach; right; exact Hg].
    destruct Hf as (Hd & _). unfold decode_field in Hd.
    specialize (Heach f' (or_introl eq_refl)).
    destruct (decode_field_loop_positions bits frame_idx (code f) 0 0 0 _ _ _ Hd)
      as (_ & Hpos); [rewrite SAMPLES_PER_SEC_val; lia | ].
    rewrite Forall_forall in *. intros c Hc.
    destruct (Hpos c Hc) as (r & s & Hs & Hr & Hb).
    exists r, s. split; [exact Hs | ]. split; [exact Hr | lia].
Qed.

Lemma likely_ok_positions_witness :
  Forall (fun f => Forall (read_below ideal_buffer 0 7) (code f)) frame.
Proof.
  apply (likely_ok_positions ideal_buffer 0 (fst ideal_decode) frame
           (snd ideal_decode)).
  - vm_compute. reflexivity.
  - vm_compute. reflexivity.
Defined.

(** ** More on the calendar converter *)

(** X12.  In a common year the converter inverts the calendar: for every day
    number from 1 to 365 it returns a month from 1 to 12 and a day of that
    month such that the days of the months before plus the day give back the
    day number. *)
Theorem daynum_to_month_day_inverse (daynum : Z) :
  1 <= daynum <= 365 ->
  exists month day,
    daynum_to_month_day daynum 0 = Ok (month, day)
    /\ 1 <= month <= 12
    /\ 1 <= day <= nth (Z.to_nat (month - 1)) month_lengths 0
    /\ days_before month + day = daynum.
Proof.
  intros Hd.
  assert (Hall : forallb converts_to_date (map Z.of_nat (seq 1 365)) = true)
    by (vm_compute; reflexivity).
  rewrite forallb_forall in Hall.
  assert (Hin : In daynum (map Z.of_nat (seq 1 365))).
  { apply in_map_iff. exists (Z.to_nat daynum). split; [lia | ].
    apply in_seq. lia. }
  specialize (Hall daynum Hin). unfold converts_to_date in Hall.
  destruct (daynum_to_month_day daynum 0) as [[month day] | i | ];
    try discriminate.
  unfold calendar_date in Hall.
  repeat (apply andb_true_iff in Hall as [Hall ?]).
  exists month, day. split; [reflexivity | lia].
Qed.

Lemma daynum_to_month_day_inverse_witness :
  exists month day,
    daynum_to_month_day 365 0 = Ok (month, day)
    /\ 1 <= month <= 12
    /\ 1 <= day <= nth (Z.to_nat (month - 1)) month_lengths 0
    /\ days_before month + day = 365.
Proof. apply (daynum_to_month_day_inverse 365). lia. Defined.

Lemma daynum_to_month_day_above_365 (daynum : Z) :
  365 < daynum -> daynum_to_month_day daynum 0 = OutOfBounds 12.
Proof.
  intros Hd; unfold daynum_to_month_day, daynum_to_month_day_fuel;
    cbn [Z.eqb bind month_search].
  repeat (match goal with
          | |- context [load ?l ?k] =>
              let v := eval vm_compute in (load l k) in
              change (load l k) with v
          end;
          cbn [bind];
          try match goal with
            | |- context [?d <? daynum] =>
                replace (d <? daynum) with true
                  by (symmetry; apply Z.ltb_lt; lia)
            end).
  reflexivity.
Qed.

Lemma daynum_to_month_day_at_most_0 (daynum : Z) :
  daynum <= 0 -> daynum_to_month_day daynum 0 = Ok (1, daynum).
Proof.
  intros Hd; unfold daynum_to_month_day, daynum_to_month_day_fuel;
    cbn [Z.eqb bind month_search].
  change (load _ 0) with (Ok (A:=Z) 31). cbn [bind].
  replace (31 <? daynum) with false by (symmetry; apply Z.ltb_ge; lia).
  reflexivity.
Qed.

(** X13.  Outside the year the converter does not report an error of its
    own.  A day number above 365 in a common year sends the search past the
    twelve entries of the table, to the index 12.  A day number 0, which is
    what a failed day field holds, comes back as month 1, day 0. *)
Theorem daynum_to_month_day_outside_year (daynum : Z) :
  (365 < daynum -> daynum_to_month_day daynum 0 = OutOfBounds 12)
  /\ (daynum <= 0 -> daynum_to_month_day daynum 0 = Ok (1, daynum)).
Proof.
  split.
  - apply daynum_to_month_day_above_365.
  - apply daynum_to_month_day_at_most_0.
Qed.

Lemma daynum_to_month_day_outside_year_witness :
  daynum_to_month_day 400 0 = OutOfBounds 12
  /\ daynum_to_month_day 0 0 = Ok (1, 0).
Proof.
  split.
  - apply (proj1 (daynum_to_month_day_outside_year 400)). lia.
  - apply (proj2 (daynum_to_month_day_outside_year 0)). lia.
Defined.

(** ** Printing the frame *)

Lemma for_loop_add {S : Type} (body : Z -> S -> result S) :
  forall (n1 n2 : nat) (lo : Z) (s : S),
    for_loop (n1 + n2) lo body s
    = bind (for_loop n1 lo body s) (for_loop n2 (lo + Z.of_nat n1) body).
Proof.
  induction n1 as [ | n1 IH]; intros n2 lo s.
  - simpl. f_equal. lia.
  - cbn [Nat.add for_loop]. destruct (body lo s) as [s' | i | ]; cbn [bind];
      try reflexivity.
    rewrite IH. f_equal. f_equal. lia.
Qed.

Section PrintFrame.

Variable bits : list Z.
Variable lb_mod : Z.

(** Samples that start no row are printed one after the other. *)
Lemma print_samples :
  forall (n : nat) (i secs : Z) (out : list printf_call),
    0 <= i -> i + Z.of_nat n <= Z.of_nat (length bits) ->
    (forall k, i <= k < i + Z.of_nat n -> k mod 40 <> lb_mod) ->
    for_loop n i (print_frame_body bits lb_mod) (secs, out)
    = Ok (secs,
          out ++ map (fun b => Printf "%u" [b])
                   (firstn n (skipn (Z.to_nat i) bits))).
Proof.
  induction n as [ | n IH]; intros i secs out Hi Hend Hmod.
  - simpl. rewrite app_nil_r. reflexivity.
  - cbn [for_loop]. unfold print_frame_body at 1.
    rewrite SAMPLES_PER_SEC_val.
    assert (Hne : (i mod 40 =? lb_mod) = false)
      by (apply Z.eqb_neq; apply Hmod; lia).
    rewrite Hne. cbv beta iota zeta.
    destruct (nth_error bits (Z.to_nat i)) as [b | ] eqn:Hb;
      [ | apply nth_error_None in Hb; lia].
    assert (Hload : load bits i = Ok b).
    { unfold load. destruct (Z.ltb_spec i 0); [lia | ]. rewrite Hb. reflexivity. }
    rewrite Hload. cbn [bind].
    rewrite IH; [ | lia | lia | intros k Hk; apply Hmod; lia].
    rewrite (skipn_nth_error bits (Z.to_nat i) b Hb).
    replace (Z.to_nat (i + 1)) with (S (Z.to_nat i)) by lia.
    cbn [firstn map]. rewrite <- app_assoc. reflexivity.
Qed.

(** The samples from a row start on, up to forty of them, make one row. *)
Lemma print_row_start (n : nat) (i secs : Z) (out : list printf_call) :
  0 <= i -> i + Z.of_nat (S n) <= Z.of_nat (length bits) ->
  i mod 40 = lb_mod ->
  (n < 40)%nat ->
  0 <= secs < 2 ^ 32 - 1 ->
  for_loop (S n) i (print_frame_body bits lb_mod) (secs, out)
  = Ok (secs + 1,
        out ++ Printf "\n   %03u (%04u): " [secs; i]
          :: map (fun b => Printf "%u" [b])
               (firstn (S n) (skipn (Z.to_nat i) bits))).
Proof.
  intros Hi Hend Hmod Hn Hsecs.
  cbn [for_loop]. unfold print_frame_body at 1.
  rewrite SAMPLES_PER_SEC_val.
  assert (Heq : (i mod 40 =? lb_mod) = true) by (apply Z.eqb_eq; exact Hmod).
  rewrite Heq. cbv beta iota zeta.
  destruct (nth_error bits (Z.to_nat i)) as [b | ] eqn:Hb;
    [ | apply nth_error_None in Hb; lia].
  assert (Hload : load bits i = Ok b).
  { unfold load. destruct (Z.ltb_spec i 0); [lia | ]. rewrite Hb. reflexivity. }
  rewrite Hload. cbn [bind]. rewrite u32_small by lia.
  rewrite print_samples; [ | lia | lia | ].
  - rewrite (skipn_nth_error bits (Z.to_nat i) b Hb).
    replace (Z.to_nat (i + 1)) with (S (Z.to_nat i)) by lia.
    cbn [firstn map]. rewrite <- !app_assoc. reflexivity.
  - intros k Hk. subst lb_mod. intros Heqmod.
    pose proof (Z.div_mod i 40 ltac:(lia)) as Hdi.
    pose proof (Z.div_mod k 40 ltac:(lia)) as Hdk.
    rewrite Heqmod in Hdk. lia.
Qed.

Lemma print_row (i secs : Z) (out : list printf_call) :
  0 <= i -> i + 40 <= Z.of_nat (length bits) ->
  i mod 40 = lb_mod ->
  0 <= secs < 2 ^ 32 - 1 ->
  for_loop 40 i (print_frame_body bits lb_mod) (secs, out)
  = Ok (secs + 1,
        out ++ Printf "\n   %03u (%04u): " [secs; i]
          :: map (fun b => Printf "%u" [b]) (second bits i)).
Proof.
  intros Hi Hend Hmod Hsecs.
  apply (print_row_start 39 i secs out); try assumption; lia.
Qed.

Lemma print_rows :
  forall (r : nat) (i secs : Z) (out : list printf_call),
    0 <= i -> i + 40 * Z.of_nat r <= Z.of_nat (length bits) ->
    i mod 40 = lb_mod ->
    0 <= secs -> secs + Z.of_nat r < 2 ^ 32 ->
    for_loop (40 * r) i (print_frame_body bits lb_mod) (secs, out)
    = Ok (secs + Z.of_nat r, out ++ rows bits r secs i).
Proof.
  induction r as [ | r IH]; intros i secs out Hi Hend Hmod Hsecs Hmax.
  - simpl. rewrite app_nil_r. f_equal. f_equal. lia.
  - replace (40 * S r)%nat with (40 + 40 * r)%nat by lia.
    rewrite for_loop_add. rewrite print_row by (assumption || lia).
    cbn [bind]. rewrite IH; try lia.
    + cbn [rows]. rewrite SAMPLES_PER_SEC_val. rewrite <- app_assoc.
      f_equal. f_equal. lia.
    + rewrite <- Hmod.
      replace (i + Z.of_nat 40) with (i + 1 * 40) by lia.
      apply Z.mod_add. lia.
Qed.

End PrintFrame.

Lemma print_frame_closed (bits : list Z) (samp_idx : Z) :
  Z.of_nat (length bits) = BLEN ->
  0 <= samp_idx <= BLEN - SAMPLES_PER_SEC * 60 ->
  print_frame bits samp_idx
  = Ok ([Printf "   Sec Sample          Samples in Second\n" [];
         Printf "   --- ------  ----------------------------------------" []]
          ++ rows bits 60 0 samp_idx ++ [Printf "\n" []]).
Proof.
  intros Hlen Hi. rewrite BLEN_val, SAMPLES_PER_SEC_val in *.
  unfold print_frame, for_range. rewrite SAMPLES_PER_SEC_val.
  rewrite u32_small by lia.
  replace (Z.to_nat (samp_idx + 60 * 40 - samp_idx)) with (40 * 60)%nat by lia.
  rewrite (print_rows bits (samp_idx mod 40) 60 samp_idx 0); try lia.
  cbn [bind]. rewrite <- app_assoc. reflexivity.
Qed.

(** X14.  For a frame start that leaves one frame in the buffer,
    [print_frame] reads no sample outside the buffer and prints, after the
    two header lines, sixty rows: the row of the second [k] is announced with
    [k] and the sample index [samp_idx + 40 k] and holds the forty samples of
    that second; a newline ends the output. *)
Theorem print_frame_rows (bits : list Z) (samp_idx : Z) :
  byte_buffer bits = true ->
  0 <= samp_idx <= BLEN - SAMPLES_PER_SEC * 60 ->
  print_frame bits samp_idx
  = Ok ([Printf "   Sec Sample          Samples in Second\n" [];
         Printf "   --- ------  ----------------------------------------" []]
          ++ rows bits 60 0 samp_idx ++ [Printf "\n" []]).
Proof.
  intros Hbuf Hi. apply byte_buffer_spec in Hbuf as [Hlen _].
  apply print_frame_closed; assumption.
Qed.

Lemma print_frame_rows_witness :
  print_frame ideal_buffer 7
  = Ok ([Printf "   Sec Sample          Samples in Second\n" [];
         Printf "   --- ------  ----------------------------------------" []]
          ++ rows ideal_buffer 60 0 7 ++ [Printf "\n" []]).
Proof.
  apply (print_frame_rows ideal_buffer 7).
  - vm_compute. reflexivity.
  - vm_compute. split; discriminate.
Defined.

(** ** The decoding part of [main] *)

Lemma frame_at_decoded (bits : list Z) (frame_idx : Z)
  (fields fields' : list field_t) (i : Z) :
  Forall2 (decoded_as bits frame_idx) fields fields' ->
  0 <= i < Z.of_nat (length fields) ->
  exists f', frame_at fields' i = Ok f'.
Proof.
  intros Hall Hi. apply Forall2_length in Hall. unfold frame_at.
  destruct (Z.ltb_spec i 0); [lia | ].
  destruct (nth_error fields' (Z.to_nat i)) as [f' | ] eqn:Hnth; [eauto | ].
  apply nth_error_None in Hnth. lia.
Qed.

Lemma total_code_len_decoded (bits : list Z) (frame_idx : Z)
  (fields fields' : list field_t) :
  Forall2 (decoded_as bits frame_idx) fields fields' ->
  total_code_len fields' = total_code_len fields.
Proof.
  unfold total_code_len. intros Hall. generalize 0.
  induction Hall as [ | f f' fields fields' Hf Hall IH]; intros acc;
    [reflexivity | ].
  destruct Hf as (_ & _ & _ & _ & Hlen). simpl. rewrite Hlen. apply IH.
Qed.

(** X15.  On every buffer of carrier levels [main], once the buffer is
    filled, finds a frame and decodes it, reading no sample outside the
    buffer.  What it does next hangs on the decoded fields: when the
    leap-year indicator is not 0 or the day number exceeds 365, the calendar
    conversion leaves its table at index 12; otherwise [main] reports the
    offset and error of the frame, the rows of [print_frame] when it is asked
    to print and nothing of the kind when it is not, the decoded frame and
    its score, the month and day of the day number, the 35 positions of the
    seven codes, the worst score and its summary. *)
Theorem main_after_fill_outcome (print_flag : bool) (bits : list Z) :
  sample_buffer bits = true ->
  exists idx err total fields' daynum lyi,
    find_frame bits = Ok (idx, err)
    /\ decode_frame bits idx frame = Ok (total, fields')
    /\ frame_at fields' DAYNUM = Ok daynum
    /\ frame_at fields' LYI = Ok lyi
    /\ (value lyi <> 0 \/ 365 < value daynum ->
        main_after_fill print_flag bits = OutOfBounds 12)
    /\ (value lyi = 0 /\ value daynum <= 365 ->
        exists rep,
          main_after_fill print_flag bits = Ok rep
          /\ rep_frame_idx rep = idx /\ rep_min_val rep = err
          /\ rep_printed rep
             = (if print_flag
                then [Printf "   Sec Sample          Samples in Second\n" [];
                      Printf
                        "   --- ------  ----------------------------------------"
                        []]
                       ++ rows bits 60 0 idx ++ [Printf "\n" []]
                else [])
          /\ rep_score rep = total /\ rep_frame rep = fields'
          /\ daynum_to_month_day (value daynum) 0
             = Ok (rep_month rep, rep_day rep)
          /\ rep_total_code_len rep = 35
          /\ rep_frame_worst_sec_score rep = frame_worst_sec_score fields'
          /\ rep_summary rep = summary (frame_worst_sec_score fields')).
Proof.
  intros Hbuf.
  destruct (find_frame_selects bits Hbuf) as (idx & err & Hfind & Hidx & _).
  apply sample_buffer_spec in Hbuf as [Hlen Hlev].
  assert (Hm : 0 <= 1 <= 255) by lia.
  assert (Hidx' : 0 <= idx <= BLEN - SAMPLES_PER_SEC * 60) by lia.
  destruct (decode_frame_loop_ok bits 1 Hm Hlen Hlev idx Hidx' frame 0
              frame_codes_in_frame) as ([total fields'] & Hdec).
  destruct (decode_frame_loop_fields bits idx frame 0 total fields' Hdec)
    as (Hall & _).
  destruct (frame_at_decoded bits idx frame fields' DAYNUM Hall) as (daynum & Hday);
    [vm_compute; split; [discriminate | reflexivity] | ].
  destruct (frame_at_decoded bits idx frame fields' LYI Hall) as (lyi & Hlyi);
    [vm_compute; split; [discriminate | reflexivity] | ].
  exists idx, err, total, fields', daynum, lyi.
  repeat (split; [assumption | ]).
  assert (Hprint : (if print_flag then print_frame bits idx else Ok [])
                   = Ok (if print_flag
                         then [Printf "   Sec Sample          Samples in Second\n" [];
                               Printf
                                 "   --- ------  ----------------------------------------"
                                 []]
                                ++ rows bits 60 0 idx ++ [Printf "\n" []]
                         else [])).
  { destruct print_flag; [ | reflexivity].
    apply (print_frame_closed bits idx Hlen Hidx'). }
  unfold main_after_fill. rewrite Hfind. cbn [bind]. rewrite Hprint. cbn [bind].
  unfold decode_frame in *. rewrite Hdec. cbn [bind].
  rewrite Hday, Hlyi. cbn [bind].
  split.
  - intros [Hleap | Hlate].
    + rewrite leap_year_adjustment_out_of_bounds by exact Hleap. reflexivity.
    + destruct (Z.eq_dec (value lyi) 0) as [Hz | Hnz].
      * rewrite Hz, daynum_to_month_day_above_365 by exact Hlate. reflexivity.
      * rewrite leap_year_adjustment_out_of_bounds by exact Hnz. reflexivity.
  - intros [Hz Hd]. rewrite Hz.
    assert (Hdate : exists month day,
               daynum_to_month_day (value daynum) 0 = Ok (month, day)).
    { destruct (Z_le_gt_dec (value daynum) 0) as [Hle | Hgt].
      - rewrite daynum_to_month_day_at_most_0 by exact Hle. eauto.
      - destruct (daynum_to_month_day_common_year (value daynum))
          as (month & day & Hdm & _); [lia | eauto]. }
    destruct Hdate as (month & day & Hdm). rewrite Hdm. cbn [bind].
    eexists. split; [reflexivity | ].
    cbn [rep_frame_idx rep_min_val rep_printed rep_score rep_frame rep_month
           rep_day rep_total_code_len rep_frame_worst_sec_score rep_summary].
    rewrite (total_code_len_decoded bits idx frame fields' Hall).
    repeat split; reflexivity.
Qed.

Lemma main_after_fill_outcome_witness :
  exists idx err total fields' daynum lyi,
    find_frame ideal_buffer = Ok (idx, err)
    /\ decode_frame ideal_buffer idx frame = Ok (total, fields')
    /\ frame_at fields' DAYNUM = Ok daynum
    /\ frame_at fields' LYI = Ok lyi
    /\ (value lyi <> 0 \/ 365 < value daynum ->
        main_after_fill true ideal_buffer = OutOfBounds 12)
    /\ (value lyi = 0 /\ value daynum <= 365 ->
        exists rep,
          main_after_fill true ideal_buffer = Ok rep
          /\ rep_frame_idx rep = idx /\ rep_min_val rep = err
          /\ rep_printed rep
             = (if true
                then [Printf "   Sec Sample          Samples in Second\n" [];
                      Printf
                        "   --- ------  ----------------------------------------"
                        []]
                       ++ rows ideal_buffer 60 0 idx ++ [Printf "\n" []]
                else [])
          /\ rep_score rep = total /\ rep_frame rep = fields'
          /\ daynum_to_month_day (value daynum) 0
             = Ok (rep_month rep, rep_day rep)
          /\ rep_total_code_len rep = 35
          /\ rep_frame_worst_sec_score rep = frame_worst_sec_score fields'
          /\ rep_summary rep = summary (frame_worst_sec_score fields')).
Proof.
  apply (main_after_fill_outcome true ideal_buffer). vm_compute. reflexivity.
Defined.

(** ** Perfectly received symbols *)

Lemma ideal_second_length (symbol : Z) : length (ideal_second symbol) = 40%nat.
Proof.
  unfold ideal_second. destruct (symbol =? 0); [reflexivity | ].
  destruct (symbol =? 1); reflexivity.
Qed.

Lemma ideal_second_levels (symbol : Z) : Forall (level_ok 1) (ideal_second symbol).
Proof.
  apply Forall_forall. intros b Hb. apply level_ok_bit.
  unfold ideal_second in Hb.
  destruct (symbol =? 0); [ | destruct (symbol =? 1)];
    apply in_app_or in Hb as [Hb | Hb]; apply repeat_spec in Hb; auto.
Qed.

Lemma encode_length (symbols : list Z) :
  length (encode symbols) = (length symbols * 40)%nat.
Proof.
  unfold encode. apply flat_map_constant_length.
  intros s _. apply ideal_second_length.
Qed.

Lemma encode_levels (symbols : list Z) : Forall (level_ok 1) (encode symbols).
Proof.
  apply Forall_forall. intros b Hb. unfold encode in Hb.
  apply in_flat_map in Hb as (s & _ & Hb).
  pose proof (ideal_second_levels s) as Hs. rewrite Forall_forall in Hs.
  apply Hs. exact Hb.
Qed.

Lemma encode_chunk (symbols : list Z) :
  forall k : nat,
    (k < length symbols)%nat ->
    firstn 40 (skipn (40 * k) (encode symbols)) = ideal_second (nth k symbols 0).
Proof.
  induction symbols as [ | a l IH]; intros k Hk; [simpl in Hk; lia | ].
  unfold encode. cbn [flat_map]. fold (encode l).
  pose proof (ideal_second_length a) as Ha.
  destruct k as [ | k].
  - rewrite Nat.mul_0_r. cbn [skipn nth].
    rewrite firstn_app, Ha, Nat.sub_diag, firstn_0, app_nil_r.
    apply firstn_all2. lia.
  - rewrite skipn_app, Ha. rewrite skipn_all2 by lia. cbn [app nth].
    replace (40 * S k - 40)%nat with (40 * k)%nat by lia.
    apply IH. simpl in Hk. lia.
Qed.

Lemma symbols_ok_spec (symbols : list Z) :
  symbols_ok symbols = true ->
  length symbols = 120%nat
  /\ (forall k, (k < 120)%nat ->
                nth k symbols 0 = 0 \/ nth k symbols 0 = 1 \/ nth k symbols 0 = 2).
Proof.
  unfold symbols_ok. intros H. apply andb_true_iff in H as [Hlen Hall].
  apply Z.eqb_eq in Hlen. change BUF_LEN_IN_SEC with 120 in Hlen.
  split; [lia | ]. intros k Hk. rewrite forallb_forall in Hall.
  assert (Hin : In (nth k symbols 0) symbols) by (apply nth_In; lia).
  specialize (Hall _ Hin). lia.
Qed.

Section Encoded.

Variable symbols : list Z.
Hypothesis Hsymbols : symbols_ok symbols = true.

Lemma encode_buffer :
  Z.of_nat (length (encode symbols)) = BLEN
  /\ Forall (level_ok 1) (encode symbols).
Proof.
  destruct (symbols_ok_spec symbols Hsymbols) as [Hlen _].
  split; [ | apply encode_levels]. rewrite encode_length, Hlen. reflexivity.
Qed.

Lemma encode_second (k : Z) :
  0 <= k < 120 ->
  second (encode symbols) (k * 40) = ideal_second (nth (Z.to_nat k) symbols 0).
Proof.
  intros Hk. destruct (symbols_ok_spec symbols Hsymbols) as [Hlen _].
  unfold second. change (Z.to_nat SAMPLES_PER_SEC) with 40%nat.
  replace (Z.to_nat (k * 40)) with (40 * Z.to_nat k)%nat by lia.
  apply encode_chunk. lia.
Qed.

Lemma decode_sec_encode (k : Z) :
  0 <= k < 120 ->
  decode_sec (encode symbols) (k * 40) = Ok (nth (Z.to_nat k) symbols 0, 0).
Proof.
  intros Hk. destruct encode_buffer as [Hlen Hlev].
  destruct (symbols_ok_spec symbols Hsymbols) as [_ Hsym].
  assert (Hm : 0 <= 1 <= 255) by lia.
  destruct (decode_sec_classify (encode symbols) 1 (k * 40) Hm Hlen Hlev)
    as (_ & _ & _ & ->); [rewrite BLEN_val, SAMPLES_PER_SEC_val; lia | ].
  rewrite encode_second by exact Hk.
  destruct (Hsym (Z.to_nat k) ltac:(lia)) as [-> | [-> | ->]]; reflexivity.
Qed.

Lemma xor_frame_case_encode (k0 : Z) (f : const_field) (sum : Z) :
  0 <= k0 <= 60 -> 0 <= sec f <= 59 ->
  type f = 0 \/ type f = 2 ->
  nth (Z.to_nat (k0 + sec f)) symbols 0 = type f ->
  0 <= sum < 2 ^ 32 ->
  xor_frame_case (encode symbols) (k0 * 40) f sum = Ok sum.
Proof.
  intros Hk0 Hsec Htype Hnth Hsum. destruct encode_buffer as [Hlen Hlev].
  assert (Hm : 0 <= 1 <= 255) by lia.
  unfold xor_frame_case. rewrite SAMPLES_PER_SEC_val.
  rewrite u32_small by lia.
  replace (k0 * 40 + sec f * 40) with ((k0 + sec f) * 40) by lia.
  destruct (decode_sec_classify (encode symbols) 1 ((k0 + sec f) * 40) Hm Hlen Hlev)
    as (Hz & _ & Hmk & _); [rewrite BLEN_val, SAMPLES_PER_SEC_val; lia | ].
  rewrite encode_second, Hnth in Hz, Hmk by lia.
  destruct Htype as [Ht | Ht]; rewrite Ht in *.
  - change (0 =? 0) with true. cbv iota. rewrite Hz. cbn [bind].
    change (template_errors 8 32 (ideal_second 0)) with 0.
    rewrite Z.add_0_r, u32_small by lia. reflexivity.
  - change (2 =? 0) with false. change (2 =? 2) with true. cbv iota.
    rewrite Hmk. cbn [bind].
    change (template_errors 32 8 (ideal_second 2)) with 0.
    rewrite Z.add_0_r, u32_small by lia. reflexivity.
Qed.

Lemma xor_frame_exhaustive_encode (k0 : Z) :
  0 <= k0 <= 60 ->
  fixed_positions_ok symbols k0 = true ->
  xor_frame_exhaustive (encode symbols) (k0 * 40) = Ok 0.
Proof.
  intros Hk0 Hfixed. unfold fixed_positions_ok in Hfixed.
  rewrite forallb_forall in Hfixed. unfold xor_frame_exhaustive.
  assert (Hloop : forall fields sum,
             incl fields frame_const_fields -> 0 <= sum < 2 ^ 32 ->
             xor_frame_exhaustive_loop (encode symbols) (k0 * 40) fields sum
             = Ok sum).
  { intros fields. induction fields as [ | f rest IH]; intros sum Hincl Hsum;
      [reflexivity | ].
    cbn [xor_frame_exhaustive_loop].
    assert (Hf : In f frame_const_fields) by (apply Hincl; left; reflexivity).
    rewrite xor_frame_case_encode; try assumption.
    - cbn [bind]. apply IH; [ | exact Hsum].
      intros g Hg. apply Hincl. right. exact Hg.
    - pose proof frame_const_fields_in_frame as Hin.
      rewrite Forall_forall in Hin. apply (Hin f Hf).
    - clear - Hf. unfold frame_const_fields in Hf. simpl in Hf.
      repeat (destruct Hf as [<- | Hf]; [simpl; auto | ]). contradiction.
    - apply Z.eqb_eq. apply Hfixed. exact Hf. }
  apply Hloop; [apply incl_refl | lia].
Qed.

End Encoded.

(** X16.  In the samples of two minutes of perfectly received symbols every
    second classifies as the symbol that was sent, with score 0. *)
Theorem decode_sec_encoded (symbols : list Z) (k : Z) :
  symbols_ok symbols = true ->
  0 <= k < BUF_LEN_IN_SEC ->
  decode_sec (encode symbols) (k * SAMPLES_PER_SEC)
  = Ok (nth (Z.to_nat k) symbols 0, 0).
Proof.
  intros Hsym Hk. change BUF_LEN_IN_SEC with 120 in Hk.
  rewrite SAMPLES_PER_SEC_val. apply decode_sec_encode; assumption.
Qed.

Lemma decode_sec_encoded_witness :
  decode_sec (encode (ideal_frame ++ ideal_frame)) (67 * SAMPLES_PER_SEC)
  = Ok (nth (Z.to_nat 67) (ideal_frame ++ ideal_frame) 0, 0).
Proof.
  apply (decode_sec_encoded (ideal_frame ++ ideal_frame) 67).
  - vm_compute. reflexivity.
  - vm_compute. split; [discriminate | reflexivity].
Defined.

(** X17.  When the perfectly received symbols hold, from the second [k0] of
    the first minute on, the fixed zeros and marks of a frame, [find_frame]
    returns error 0 and an offset that is not past that second; a frame that
    starts with the buffer is found at offset 0. *)
Theorem find_frame_encoded (symbols : list Z) (k0 : Z) :
  symbols_ok symbols = true ->
  0 <= k0 < 60 ->
  fixed_positions_ok symbols k0 = true ->
  exists idx,
    find_frame (encode symbols) = Ok (idx, 0)
    /\ 0 <= idx <= k0 * SAMPLES_PER_SEC
    /\ xor_frame_exhaustive (encode symbols) idx = Ok 0.
Proof.
  intros Hsym Hk0 Hfixed.
  destruct (encode_buffer symbols Hsym) as [Hlen Hlev].
  assert (Hbuf : sample_buffer (encode symbols) = true).
  { unfold sample_buffer. apply andb_true_iff. split; [apply Z.eqb_eq; exact Hlen | ].
    apply forallb_forall. intros b Hb. rewrite Forall_forall in Hlev.
    destruct (level_ok_1_bit b (Hlev b Hb)) as [-> | ->]; reflexivity. }
  pose proof (xor_frame_exhaustive_encode symbols Hsym k0 ltac:(lia) Hfixed) as Hzero.
  destruct (find_frame_selects (encode symbols) Hbuf)
    as (idx & err & Hfind & Hidx & Herr & Hmin).
  rewrite BLEN_val, SAMPLES_PER_SEC_val in *.
  destruct (Hmin (k0 * 40) ltac:(lia)) as (e & He & _ & Hle & Hlt).
  rewrite Hzero in He. injection He as <-.
  destruct (Hmin idx Hidx) as (e & He & Hb & _).
  rewrite Herr in He. injection He as <-.
  assert (Herr0 : err = 0) by lia. subst err.
  exists idx. split; [exact Hfind | ]. split; [ | exact Herr].
  split; [lia | ].
  destruct (Z_le_gt_dec idx (k0 * 40)) as [Hok | Hgt]; [exact Hok | ].
  specialize (Hlt ltac:(lia)). lia.
Qed.

Lemma find_frame_encoded_witness :
  exists idx,
    find_frame (encode (ideal_frame ++ ideal_frame)) = Ok (idx, 0)
    /\ 0 <= idx <= 0 * SAMPLES_PER_SEC
    /\ xor_frame_exhaustive (encode (ideal_frame ++ ideal_frame)) idx = Ok 0.
Proof.
  apply (find_frame_encoded (ideal_frame ++ ideal_frame) 0).
  - vm_compute. reflexivity.
  - vm_compute. split; [discriminate | reflexivity].
  - vm_compute. reflexivity.
Defined.

Lemma weighted_sum_map (code : list code_t) (g : code_t -> Z) :
  weighted_sum code (map (fun c => (g c, 0)) code)
  = Zsum (map (fun c => weight c * g c) code).
Proof.
  unfold weighted_sum. induction code as [ | c code IH]; [reflexivity | ].
  cbn [map combine Zsum fold_right fst snd]. unfold Zsum in IH. rewrite IH.
  reflexivity.
Qed.

(** X18.  On perfectly received symbols a field whose bits are zeros and
    ones decodes, at the start of their frame, to the value the bits carry,
    with score 0 and worst score 0. *)
Theorem decode_field_encoded (symbols : list Z) (k0 : Z) (code : list code_t) :
  symbols_ok symbols = true ->
  code_ok code = true ->
  0 <= k0 <= 60 ->
  data_bits_ok symbols k0 code = true ->
  decode_field (encode symbols) (k0 * SAMPLES_PER_SEC) code
  = Ok (transmitted_value symbols k0 code, 0, 0).
Proof.
  intros Hsym Hcode Hk0 Hdata.
  destruct (encode_buffer symbols Hsym) as [Hlen Hlev].
  unfold code_ok in Hcode.
  apply andb_true_iff in Hcode as [Hcode Hcount].
  apply andb_true_iff in Hcode as [Hentries Hweights].
  apply Z.ltb_lt in Hcount, Hweights.
  rewrite forallb_forall in Hentries.
  unfold data_bits_ok in Hdata. rewrite forallb_forall in Hdata.
  rewrite SAMPLES_PER_SEC_val.
  set (g := fun c => nth (Z.to_nat (k0 + bit c)) symbols 0).
  assert (Hcl : classified (encode symbols) (k0 * 40) code
                  (map (fun c => (g c, 0)) code)).
  { unfold classified. clear Hweights Hcount.
    induction code as [ | c code IH]; [constructor | ].
    cbn [map]. constructor.
    - specialize (Hentries c (or_introl eq_refl)).
      unfold code_sample. rewrite SAMPLES_PER_SEC_val.
      rewrite (u32_small (bit c * 40)) by lia. rewrite u32_small by lia.
      replace (k0 * 40 + bit c * 40) with ((k0 + bit c) * 40) by lia.
      apply decode_sec_encode; [exact Hsym | lia].
    - apply IH; intros x Hx; [apply Hentries | apply Hdata]; right; exact Hx. }
  unfold decode_field.
  rewrite (decode_field_loop_no_marker (encode symbols) (k0 * 40) 0 code
             (map (fun c => (g c, 0)) code) 0 0 0 Hcl); try lia.
  - rewrite weighted_sum_map, map_map. cbn [snd].
    assert (Hz : forall l : list code_t,
               Zsum (map (fun _ => 0) l) = 0 /\ Zmax (map (fun _ => 0) l) = 0).
    { induction l as [ | x l [IH1 IH2]]; [split; reflexivity | ].
      cbn [map Zsum Zmax fold_right]. fold (Zsum (map (fun _ : code_t => 0) l)).
      fold (Zmax (map (fun _ : code_t => 0) l)). rewrite IH1, IH2.
      split; reflexivity. }
    rewrite (proj1 (Hz code)), (proj2 (Hz code)). reflexivity.
  - apply Forall_forall. intros r Hr. apply in_map_iff in Hr as (c & <- & Hc).
    specialize (Hdata c Hc). cbn [fst snd]. unfold g. lia.
  - apply Forall_forall. intros c Hc. specialize (Hentries c Hc). lia.
Qed.

Lemma decode_field_encoded_witness :
  decode_field (encode (ideal_frame ++ ideal_frame)) (60 * SAMPLES_PER_SEC)
    hours_code
  = Ok (transmitted_value (ideal_frame ++ ideal_frame) 60 hours_code, 0, 0).
Proof.
  apply (decode_field_encoded (ideal_frame ++ ideal_frame) 60 hours_code).
  - vm_compute. reflexivity.
  - vm_compute. reflexivity.
  - lia.
  - vm_compute. reflexivity.
Defined.

(** ** Saving and loading the buffer *)

(** X19.  A buffer saved with [save_buffer_file] and loaded again with
    [fill_buffer_file] is the buffer that was saved, whatever the array held
    before, and the load prints no warning. *)
Theorem fill_after_save (bits old : list Z) :
  Z.of_nat (length bits) = BLEN ->
  length old = length bits ->
  exists content,
    save_buffer_file true bits = Some content
    /\ fill_buffer_file (Some content) old = Some (bits, false).
Proof.
  intros Hlen Hold. exists bits. split; [reflexivity | ].
  unfold fill_buffer_file, fread. rewrite Nat2Z.id, Hold, Nat.min_id.
  rewrite firstn_all. rewrite <- Hold, skipn_all, app_nil_r. rewrite Hold, Hlen.
  reflexivity.
Qed.

Lemma fill_after_save_witness :
  exists content,
    save_buffer_file true ideal_buffer = Some content
    /\ fill_buffer_file (Some content) zero_buffer = Some (ideal_buffer, false).
Proof.
  apply (fill_after_save ideal_buffer zero_buffer).
  - vm_compute. reflexivity.
  - vm_compute. reflexivity.
Defined.

(** ** The candidate that the search leaves out *)

Section FixedErrors.

Variable bits : list Z.
Hypothesis Hlen : Z.of_nat (length bits) = BLEN.
Hypothesis Hlevels : Forall (level_ok 1) bits.

Variable offset : Z.
Hypothesis Hoffset : 0 <= offset <= BLEN - SAMPLES_PER_SEC * 60.

Lemma symbol_score_template (f : const_field) :
  second_in_frame f -> type f = 0 \/ type f = 2 ->
  symbol_score bits (offset + sec f * SAMPLES_PER_SEC) (type f)
  = Ok (template_errors_for (type f)
          (second bits (offset + sec f * SAMPLES_PER_SEC)))
  /\ 0 <= template_errors_for (type f)
            (second bits (offset + sec f * SAMPLES_PER_SEC)).
Proof.
  unfold second_in_frame. intros Hf Hty.
  pose proof SAMPLES_PER_SEC_val as HS. pose proof BLEN_val as HB.
  assert (Hm : 0 <= 1 <= 255) by lia.
  destruct (decode_sec_classify bits 1 (offset + sec f * SAMPLES_PER_SEC)
              Hm Hlen Hlevels) as (Hz & _ & Hk & _); [lia | ].
  destruct (xor_zero_ok bits 1 Hm Hlen Hlevels (offset + sec f * SAMPLES_PER_SEC))
    as (z & Hz' & Hzb); [lia | ].
  destruct (xor_mark_ok bits 1 Hm Hlen Hlevels (offset + sec f * SAMPLES_PER_SEC))
    as (k & Hk' & Hkb); [lia | ].
  unfold symbol_score, template_errors_for.
  destruct Hty as [-> | ->].
  - change (0 =? 0) with true. cbv iota. split; [exact Hz | ].
    rewrite Hz in Hz'. injection Hz' as ->. lia.
  - change (2 =? 0) with false. change (2 =? 1) with false. cbv iota.
    split; [exact Hk | ]. rewrite Hk in Hk'. injection Hk' as ->. lia.
Qed.

(** A candidate with a fixed second that differs from its ideal waveform has
    a cumulative error above 0. *)
Lemma has_fixed_error_positive :
  forall (fields : list const_field) (t : Z),
    Forall second_in_frame fields ->
    Forall (fun f => type f = 0 \/ type f = 2) fields ->
    sum_scores
      (map (fun f => symbol_score bits (offset + sec f * SAMPLES_PER_SEC) (type f))
         fields) = Ok t ->
    0 <= t /\ (has_fixed_error bits offset fields = true -> 0 < t).
Proof.
  intros fields. induction fields as [ | f rest IH]; intros t Hsec Htype Hsum.
  - simpl in Hsum. injection Hsum as <-. split; [lia | discriminate].
  - inversion Hsec as [ | f' rest' Hf Hrest]; subst.
    inversion Htype as [ | f' rest' Hty Htypes]; subst.
    destruct (symbol_score_template f Hf Hty) as (Hs & Hnn).
    cbn [map sum_scores] in Hsum. rewrite Hs in Hsum. cbn [bind] in Hsum.
    destruct (sum_scores
                (map (fun f => symbol_score bits
                                 (offset + sec f * SAMPLES_PER_SEC) (type f))
                   rest)) as [t' | i | ] eqn:Hrest'; cbn [bind] in Hsum;
      try discriminate.
    injection Hsum as <-.
    destruct (IH t' Hrest Htypes eq_refl) as (Hnn' & Hpos).
    split; [lia | ]. cbn [has_fixed_error].
    destruct (Z.ltb_spec 0 (template_errors_for (type f)
                              (second bits (offset + sec f * SAMPLES_PER_SEC))));
      [lia | ].
    intros Hrec. specialize (Hpos Hrec). lia.
Qed.

End FixedErrors.

(** In [late_buffer] every candidate of the search has a fixed second that
    differs from its ideal waveform. *)
Lemma late_buffer_errors (j : Z) :
  0 <= j < 2400 -> has_fixed_error late_buffer j frame_const_fields = true.
Proof.
  intros Hj.
  assert (Hall : forallb (fun k => has_fixed_error late_buffer (Z.of_nat k)
                                     frame_const_fields) (seq 0 2400) = true)
    by (vm_compute; reflexivity).
  rewrite forallb_forall in Hall.
  specialize (Hall (Z.to_nat j)). rewrite Z2Nat.id in Hall by lia.
  apply Hall. apply in_seq. lia.
Qed.

(** C3, as stated, fails.  The offset [BLEN] minus one frame, 2400, is a
    start that leaves a whole frame in the buffer, and in [late_buffer] the
    frame that starts there matches the 18 fixed positions without an
    error; [find_frame], whose loop stops before that offset, returns the
    offset 0 with the error 1. *)
Lemma find_frame_misses_last_offset :
  sample_buffer late_buffer = true
  /\ BLEN - SAMPLES_PER_SEC * 60 = 2400
  /\ cumulative_error late_buffer 2400 = Ok 0
  /\ cumulative_error late_buffer 0 = Ok 1
  /\ find_frame late_buffer = Ok (0, 1).
Proof.
  assert (Hbuf : sample_buffer late_buffer = true) by (vm_compute; reflexivity).
  assert (H0 : cumulative_error late_buffer 0 = Ok 1) by (vm_compute; reflexivity).
  split; [exact Hbuf | ]. split; [reflexivity | ].
  split; [vm_compute; reflexivity | ]. split; [exact H0 | ].
  destruct (find_frame_selects late_buffer Hbuf)
    as (idx & err & Hfind & Hidx & Herr & Hmin).
  apply sample_buffer_spec in Hbuf as [Hlen Hlev].
  assert (Hm : 0 <= 1 <= 255) by lia.
  change (BLEN - SAMPLES_PER_SEC * 60) with 2400 in *.
  assert (Hlink : forall j, 0 <= j < 2400 ->
                    xor_frame_exhaustive late_buffer j
                    = cumulative_error late_buffer j).
  { intros j Hj. apply (xor_frame_exhaustive_cumulative late_buffer 1 Hm Hlen Hlev).
    rewrite BLEN_val, SAMPLES_PER_SEC_val. lia. }
  assert (Hpos : 0 < err).
  { rewrite Hlink in Herr by exact Hidx.
    apply (has_fixed_error_positive late_buffer Hlen Hlev idx) with
      (fields := frame_const_fields).
    - rewrite BLEN_val, SAMPLES_PER_SEC_val. lia.
    - exact frame_const_fields_in_frame.
    - exact frame_const_fields_types.
    - exact Herr.
    - apply late_buffer_errors. exact Hidx. }
  destruct (Hmin 0 ltac:(lia)) as (e & He & _ & Hle & Hlt).
  rewrite Hlink, H0 in He by lia. injection He as <-.
  assert (Herr1 : err = 1) by lia.
  assert (Hidx0 : idx = 0).
  { destruct (Z.eq_dec idx 0) as [Hz | Hnz]; [exact Hz | ].
    specialize (Hlt ltac:(lia)). lia. }
  rewrite Hfind, Herr1, Hidx0. reflexivity.
Qed.
